(** * Canonfire character sheets: field reconciliation and sheet loading

    A shallow embedding of [src/sheets/sheet.js] (class [Sheet]), of the
    character sheet window ([CharacterSheetWindow.load]), of the main page
    ([frontend/src/pages/main.ts]) and of the login page
    ([src/js/login.js]), with the properties of the sheet specification
    stated over it.

    Conventions of the embedding.
    - A JavaScript object used as a record of fields is a finite map from
      property names to values ([gmap string Val]); reading a property that
      is not there yields [VUndefined], as in JavaScript.
    - Field values are the scalars of the entity record.  Numbers are
      modelled by integers (an integer stands for the number of that value,
      below 2^53 in absolute value, which JavaScript prints in decimal).
    - An element holds the string assigned to its [value]: the sanitization
      that an input element of some types applies to an assigned string
      (a text field drops line breaks) is not modelled, and the statements
      say what is assigned, not what is shown, where the two can differ.
    - DOM elements live in a store indexed by handles, so that one element
      bound twice is one shared object.
    - Every assignment to [element.value] or to [titleNode.textContent] is
      also appended to a history ([writes]), so that "this call wrote that
      element" can be stated even when the value written is the one already
      displayed. *)

From Stdlib Require Import Ascii String.
From stdpp Require Import gmap strings list fin_maps pretty.

Open Scope string_scope.
Open Scope list_scope.

(** ** JavaScript values *)

Inductive Val :=
| VUndefined
| VNull
| VBool (b : bool)
| VNum (n : Z)
| VStr (s : string).

#[global] Instance Val_eq_dec : EqDecision Val.
Proof. solve_decision. Defined.

Abbreviation Obj := (gmap string Val).

(** [o[k]] *)
Definition prop (o : Obj) (k : string) : Val := default VUndefined (o !! k).

(** [o[k] = v], as far as the own properties of [o] go.  Under the key
    [__proto__] an object with no own property of that name is left as it
    is: the assignment goes to the accessor of [Object.prototype], which
    sets the prototype (for an object) or ignores the value (for a
    scalar), and creates no property. *)
Definition set_property {A : Type} (k : string) (v : A) (o : gmap string A)
  : gmap string A :=
  match o !! k with
  | None => if bool_decide (k = "__proto__") then o else <[k := v]> o
  | Some _ => <[k := v]> o
  end.

(** [a !== b] on scalars. *)
Definition strict_neq (a b : Val) : bool := bool_decide (a ≠ b).

(** [a != "success"]: a scalar is loosely equal to a non-numeric string
    only when it is that very string. *)
Definition loose_neq_str (a : Val) (s : string) : bool :=
  bool_decide (a ≠ VStr s).

(** The argument of a call that expects an object: property access on
    [undefined] or [null] throws a [TypeError]. *)
Inductive Data :=
| DUndefined
| DNull
| DObject (o : Obj).

(** Conversion to a DOM string, as done by the [value] setter of an input
    element ([null] becomes the empty string there). *)
Definition to_value_string (v : Val) : string :=
  match v with
  | VUndefined => "undefined"
  | VNull => EmptyString
  | VBool true => "true"
  | VBool false => "false"
  | VNum n => pretty n
  | VStr s => s
  end.

(** Conversion done by the [textContent] setter, whose type is a nullable
    DOM string: [undefined] and [null] both clear the text. *)
Definition to_text_content (v : Val) : string :=
  match v with
  | VUndefined | VNull => EmptyString
  | _ => to_value_string v
  end.

(** ** The page: window, document and collaborators *)

Abbreviation elem_id := nat.

Inductive Mode := Immediate | Batched.

(** The closure installed by [addEventListener("input", ...)]: it captures
    the key and the element (and [this], the sheet). *)
Record Listener := mkListener {
  l_mode : Mode;
  l_key : string;
  l_element : elem_id;
}.

Record Element := mkElement {
  value : string;
  listeners : list Listener;
}.

(** Calls made to the collaborators of [pending_updates.js] and
    [requests.js]. *)
Inductive Outbound :=
| AddCharacterUpdate (update : Obj)
| ApiRequest (endpoint : string) (body : Obj).

Inductive Write :=
| SetTextContent (text : string)
| SetValue (element : elem_id) (text : string).

Record Page := mkPage {
  content : gmap string elem_id;     (* window.content.querySelector *)
  titleNode : string;                (* window.titleNode.textContent *)
  elements : gmap elem_id Element;
  activeElement : option elem_id;    (* document.activeElement *)
  console : list string;             (* console.error *)
  outbound : list Outbound;
  writes : list Write;
}.

Definition set_content (c : gmap string elem_id) (p : Page) : Page :=
  mkPage c (titleNode p) (elements p) (activeElement p) (console p)
         (outbound p) (writes p).

Definition set_elements (es : gmap elem_id Element) (p : Page) : Page :=
  mkPage (content p) (titleNode p) es (activeElement p) (console p)
         (outbound p) (writes p).

Definition set_activeElement (a : option elem_id) (p : Page) : Page :=
  mkPage (content p) (titleNode p) (elements p) a (console p)
         (outbound p) (writes p).

Definition console_error (msg : string) (p : Page) : Page :=
  mkPage (content p) (titleNode p) (elements p) (activeElement p)
         (console p ++ [msg]) (outbound p) (writes p).

Definition send (o : Outbound) (p : Page) : Page :=
  mkPage (content p) (titleNode p) (elements p) (activeElement p) (console p)
         (outbound p ++ [o]) (writes p).

(** [titleNode.textContent = v] *)
Definition assign_textContent (v : Val) (p : Page) : Page :=
  mkPage (content p) (to_text_content v) (elements p) (activeElement p)
         (console p) (outbound p)
         (writes p ++ [SetTextContent (to_text_content v)]).

Definition with_value (s : string) (e : Element) : Element :=
  mkElement s (listeners e).

(** [element.value = v]: the element holds the string assigned. *)
Definition assign_value (element : elem_id) (v : Val) (p : Page) : Page :=
  mkPage (content p) (titleNode p)
         (alter (with_value (to_value_string v)) element (elements p))
         (activeElement p) (console p) (outbound p)
         (writes p ++ [SetValue element (to_value_string v)]).

Definition with_listener (l : Listener) (e : Element) : Element :=
  mkElement (value e) (listeners e ++ [l]).

(** [element.addEventListener("input", l)] *)
Definition addEventListener (element : elem_id) (l : Listener) (p : Page)
  : Page :=
  set_elements (alter (with_listener l) element (elements p)) p.

(** [element.value] *)
Definition value_of (element : elem_id) (p : Page) : string :=
  match elements p !! element with
  | Some e => value e
  | None => EmptyString
  end.

Definition has_focus (element : elem_id) (p : Page) : Prop :=
  activeElement p = Some element.

(** How a call ends: it returns, or throws with the state reached. *)
Inductive Outcome (A : Type) :=
| Returned (a : A)
| Threw (error : string) (a : A).
Arguments Returned {A} a.
Arguments Threw {A} error a.

Definition state_of {A} (o : Outcome A) : A :=
  match o with Returned a | Threw _ a => a end.

(** ** [class Sheet] *)

Module Sheet.

Record t := mk {
  id : Val;
  cachedData : Obj;
  inputs : list (string * elem_id);
}.

(** [constructor(id, window)] *)
Definition new (i : Val) : t := mk i ∅ [].

Definition push_input (key : string) (element : elem_id) (sh : t) : t :=
  mk (id sh) (cachedData sh) (inputs sh ++ [(key, element)]).

Definition not_found (selector : string) : string :=
  ("Can't find " ++ String "034"%char selector
     ++ String "034"%char " in character sheet")%string.

Definition registerBatchedInput (selector key : string) (sh : t) (p : Page)
  : option elem_id * t * Page :=
  match content p !! selector with
  | None => (None, sh, console_error (not_found selector) p)
  | Some element =>
      let p := addEventListener element (mkListener Batched key element) p in
      (Some element, push_input key element sh, p)
  end.

Definition registerInput (selector key : string) (sh : t) (p : Page)
  : option elem_id * t * Page :=
  match content p !! selector with
  | None => (None, sh, console_error (not_found selector) p)
  | Some element =>
      let p := addEventListener element (mkListener Immediate key element) p in
      (Some element, push_input key element sh, p)
  end.

Definition addListeners (sh : t) (p : Page) : t * Page := (sh, p).

(** The body of an installed listener. *)
Definition listener (sh : t) (l : Listener) (p : Page) : Page :=
  let update : Obj := {[ "id" := id sh ]} in
  let update :=
    set_property (l_key l) (VStr (value_of (l_element l) p)) update in
  match l_mode l with
  | Batched => send (AddCharacterUpdate update) p
  | Immediate => send (ApiRequest "/character/update" update) p
  end.

(** The [for] loop of [update]. *)
Definition update_inputs (data : Obj) (sh : t) (p : Page) : Page :=
  foldl (λ p '(key, element),
           if strict_neq (prop data key) (prop (cachedData sh) key)
           then assign_value element (prop data key) p
           else p)
        p (inputs sh).

Definition update_object (data : Obj) (sh : t) (p : Page) : t * Page :=
  let p :=
    if strict_neq (prop data "name") (prop (cachedData sh) "name")
    then assign_textContent (prop data "name") p
    else p in
  (sh, update_inputs data sh p).

(** [update(data)].  Reading [data.name] throws when [data] is [undefined]
    or [null], before anything is written. *)
Definition update (data : Data) (sh : t) (p : Page) : Outcome (t * Page) :=
  match data with
  | DObject o => Returned (update_object o sh p)
  | DUndefined | DNull => Threw "TypeError" (sh, p)
  end.

End Sheet.

(** A user edit: the element takes the typed text, then the [input] event
    runs the element's listeners in the order they were added. *)
Definition input_event (element : elem_id) (typed : string)
    (sh : Sheet.t) (p : Page) : Page :=
  let p := set_elements (alter (with_value typed) element (elements p)) p in
  match elements p !! element with
  | Some e => foldl (λ p l, Sheet.listener sh l p) p (listeners e)
  | None => p
  end.

(** ** [class CharacterSheetWindow] *)

(** The default export of a [<sheet_type>-sheet.js] module: a subclass of
    [Sheet] that supplies [onLoad] and overrides [addListeners]; [update]
    is the one of the base class. *)
Record SheetClass := mkSheetClass {
  onLoad : Obj → Sheet.t → Page → Sheet.t * Page;
  addListeners : Sheet.t → Page → Sheet.t * Page;
}.

(** What [Templates.loadHtml] resolves to: elements and the selectors that
    reach them. *)
Record Fragment := mkFragment {
  f_content : gmap string elem_id;
  f_elements : gmap elem_id Element;
}.

(** The reply of [ApiRequest("/character/get", { id })]. *)
Record Response := mkResponse {
  status : Val;
  character : Data;
}.

(** The value an [await] of [load] is resumed with. *)
Inductive Resumption :=
| SuperLoaded                          (* line 14 *)
| Fetched (response : Response)        (* line 18 *)
| Imported (sheetClass : SheetClass)   (* line 28 *)
| CssLoaded                            (* line 29 *)
| HtmlLoaded (fragment : Fragment)     (* line 30 *)
| Subscribed                           (* line 37 *)
| Rejection.                           (* the awaited promise rejects *)

Module CharacterSheetWindow.

(** Where [load] is suspended, with the locals alive at that point. *)
Inductive Phase :=
| Unloaded
| AwaitSuper (id : Val)
| AwaitFetch (id : Val)
| AwaitImport (id : Val) (characterData : Obj)
| AwaitCss (id : Val) (characterData : Obj) (sheetClass : SheetClass)
| AwaitHtml (id : Val) (characterData : Obj) (sheetClass : SheetClass)
| AwaitSubscribe
| Fulfilled
| Rejected.

Record t := mk {
  page : Page;
  phase : Phase;
  sheet : option Sheet.t;       (* the [sheet] local, kept by the handler *)
  toasts : list string;         (* ErrorToast *)
  subscriptions : list Val;     (* ids the window is subscribed to *)
  closed : bool;
}.

(** A window that has just been constructed. *)
Definition new (p : Page) : t := mk p Unloaded None [] [] false.

Definition set_phase (ph : Phase) (w : t) : t :=
  mk (page w) ph (sheet w) (toasts w) (subscriptions w) (closed w).

Definition set_page (p : Page) (w : t) : t :=
  mk p (phase w) (sheet w) (toasts w) (subscriptions w) (closed w).

Definition ErrorToast (msg : string) (w : t) : t :=
  mk (page w) (phase w) (sheet w) (toasts w ++ [msg]) (subscriptions w)
     (closed w).

(** Modelled from the spec: [ContentWindow.subscribe] (window.js is not
    part of the sources), the [subscribe(id, handler)] of the push
    channel.  The handler is always the closure of line 37. *)
Definition subscribe (id : Val) (w : t) : t :=
  mk (page w) (phase w) (sheet w) (toasts w) (subscriptions w ++ [id])
     (closed w).

(** Modelled from the spec: [ContentWindow.close] (window.js is not part
    of the sources): the window unsubscribes and is closed; closing twice
    is closing once. *)
Definition close (w : t) : t :=
  mk (page w) (phase w) (sheet w) (toasts w) [] true.

(** [load(id)] up to its first [await].  One call of [load] per window is
    modelled: a call made when [load] has been called before is left out
    (the code would run [load] once more, beside the first run), and the
    statements below are about the events that follow one call. *)
Definition load (id : Val) (w : t) : t :=
  match phase w with
  | Unloaded => set_phase (AwaitSuper id) w
  | _ => w
  end.

(** Lines 31 to 37, run when the template has arrived. *)
Definition instantiate (id : Val) (characterData : Obj)
    (sheetClass : SheetClass) (fragment : Fragment) (w : t) : t :=
  let p := page w in
  let p := set_content (content p ∪ f_content fragment) p in
  let p := set_elements (elements p ∪ f_elements fragment) p in
  let sh := Sheet.new (prop characterData "id") in
  let '(sh, p) := onLoad sheetClass characterData sh p in
  let '(sh, p) := addListeners sheetClass sh p in
  let '(sh, p) := state_of (Sheet.update (DObject characterData) sh p) in
  subscribe id
    (mk p AwaitSubscribe (Some sh) (toasts w) (subscriptions w) (closed w)).

(** [load] from one [await] to the next. *)
Definition resume (r : Resumption) (w : t) : t :=
  match phase w, r with
  | AwaitSuper id, SuperLoaded =>
      let p := set_content ∅ (page w) in
      let p := send (ApiRequest "/character/get" {[ "id" := id ]}) p in
      set_phase (AwaitFetch id) (set_page p w)
  | AwaitFetch id, Fetched response =>
      if loose_neq_str (status response) "success"
      then set_phase Fulfilled (ErrorToast "Character loading failed!" w)
      else match character response with
           | DObject characterData =>
               let p := assign_textContent (prop characterData "name")
                                           (page w) in
               set_phase (AwaitImport id characterData) (set_page p w)
           | DUndefined | DNull => set_phase Rejected w
           end
  | AwaitImport id characterData, Imported sheetClass =>
      set_phase (AwaitCss id characterData sheetClass) w
  | AwaitCss id characterData sheetClass, CssLoaded =>
      set_phase (AwaitHtml id characterData sheetClass) w
  | AwaitHtml id characterData sheetClass, HtmlLoaded fragment =>
      instantiate id characterData sheetClass fragment w
  | AwaitSubscribe, Subscribed => set_phase Fulfilled w
  | (AwaitSuper _ | AwaitFetch _ | AwaitImport _ _ | AwaitCss _ _ _
     | AwaitHtml _ _ _ | AwaitSubscribe), Rejection => set_phase Rejected w
  | _, _ => w
  end.

(** The handler of line 37, called by the push channel for a subscribed
    id.  It is [async]: an exception of [update] rejects its promise and
    goes no further. *)
Definition push (id : Val) (changes : Data) (w : t) : t :=
  if bool_decide (id ∈ subscriptions w) then
    match sheet w with
    | Some sh =>
        let '(sh, p) := state_of (Sheet.update changes sh (page w)) in
        mk p (phase w) (Some sh) (toasts w) (subscriptions w) (closed w)
    | None => w
    end
  else w.

Inductive Event :=
| Load (id : Val)
| Resume (r : Resumption)
| Close
| Push (id : Val) (changes : Data).

Definition step (w : t) (ev : Event) : t :=
  match ev with
  | Load id => load id w
  | Resume r => resume r w
  | Close => close w
  | Push id changes => push id changes w
  end.

Definition run (evs : list Event) (w : t) : t := foldl step w evs.

Definition is_load (ev : Event) : bool :=
  match ev with Load _ => true | _ => false end.

End CharacterSheetWindow.

(** ** The specification's change detection *)

(** [diff(payload)] as the specification words it: the keys present in the
    payload whose value differs from the cache by strict inequality, a key
    absent from the cache having no prior value. *)
Definition diff (cache payload : Obj) : gset string :=
  filter (λ k, prop payload k ≠ prop cache k) (dom payload).

(** The bindings whose key [update] finds changed, in binding order. *)
Definition changed_inputs (data cache : Obj) (ins : list (string * elem_id))
  : list (string * elem_id) :=
  filter (λ b, prop data b.1 ≠ prop cache b.1) ins.

(** The writes [update] makes for a payload, in order. *)
Definition title_writes (data cache : Obj) : list Write :=
  if strict_neq (prop data "name") (prop cache "name")
  then [SetTextContent (to_text_content (prop data "name"))]
  else [].

Definition input_writes (data cache : Obj) (ins : list (string * elem_id))
  : list Write :=
  (λ b, SetValue b.2 (to_value_string (prop data b.1)))
    <$> changed_inputs data cache ins.

(** The text an element shows after the loop of [update], from the text
    [old] it showed before. *)
Fixpoint final_value (data cache : Obj) (ins : list (string * elem_id))
    (element : elem_id) (old : string) : string :=
  match ins with
  | [] => old
  | (key, element') :: ins =>
      final_value data cache ins element
        (if strict_neq (prop data key) (prop cache key)
            && bool_decide (element' = element)
         then to_value_string (prop data key)
         else old)
  end.

(** The call an installed listener makes when the element it reads shows
    [text]: the object [{ id }] with [text] assigned under the key goes to
    the queue of batched updates or into an update request. *)
Definition listener_call (id : Val) (l : Listener) (text : string) : Outbound :=
  let update : Obj := set_property (l_key l) (VStr text) {[ "id" := id ]} in
  match l_mode l with
  | Batched => AddCharacterUpdate update
  | Immediate => ApiRequest "/character/update" update
  end.

(** ** Sample sheets *)

Module Sample.

(** A window whose template has one field, [.hp], which has focus and
    shows the text being typed. *)
Definition template : Page :=
  mkPage {[ ".hp" := 0 ]} "Sheet" {[ 0 := mkElement "ab" [] ]} (Some 0)
         [] [] [].

Definition fresh : Sheet.t := Sheet.new (VStr "c1").

(** The sheet and the page once [.hp] is bound to the key [hp]; nothing is
    cached. *)
Definition sheet : Sheet.t :=
  (Sheet.registerInput ".hp" "hp" fresh template).1.2.

Definition page : Page :=
  (Sheet.registerInput ".hp" "hp" fresh template).2.

(** The same sheet with [hp] cached, as a subclass may leave it. *)
Definition cached_sheet : Sheet.t :=
  Sheet.mk (Sheet.id sheet) {[ "hp" := VStr "ab" ]} (Sheet.inputs sheet).

Definition hp10 : Obj := {[ "hp" := VStr "10" ]}.
Definition zog : Obj := {[ "name" := VStr "Zog" ]}.
Definition zog_hp10 : Obj := <[ "name" := VStr "Zog" ]> hp10.

(** A sheet class with a single immediate binding. *)
Definition hp_sheet : SheetClass :=
  mkSheetClass
    (λ _ sh p, (sh, p))
    (λ sh p, let '(_, sh, p) := Sheet.registerInput ".hp" "hp" sh p in
             (sh, p)).

Definition fragment : Fragment :=
  mkFragment {[ ".hp" := 0 ]} {[ 0 := mkElement EmptyString [] ]}.

Definition blank : Page := mkPage ∅ EmptyString ∅ None [] [] [].

Definition character : Obj :=
  <[ "id" := VStr "c1" ]> (<[ "sheet_type" := VStr "hp" ]> zog_hp10).

Definition success : Response :=
  mkResponse (VStr "success") (DObject character).

Definition failure : Response := mkResponse (VStr "error") DUndefined.

End Sample.

(** ** Using a sheet *)

(** The calls a sheet receives: from its subclass when it binds fields,
    from the window when data arrives, from the user who types. *)
Inductive Op :=
| RegisterInput (selector key : string)
| RegisterBatchedInput (selector key : string)
| Update (data : Data)
| InputEvent (element : elem_id) (typed : string).

Definition apply_op (st : Sheet.t * Page) (op : Op) : Sheet.t * Page :=
  match op with
  | RegisterInput selector key =>
      let '(_, sh, p) := Sheet.registerInput selector key st.1 st.2 in (sh, p)
  | RegisterBatchedInput selector key =>
      let '(_, sh, p) := Sheet.registerBatchedInput selector key st.1 st.2 in
      (sh, p)
  | Update data => state_of (Sheet.update data st.1 st.2)
  | InputEvent element typed => (st.1, input_event element typed st.1 st.2)
  end.

Definition apply_ops (ops : list Op) (st : Sheet.t * Page) : Sheet.t * Page :=
  foldl apply_op st ops.

(** Every selector of the window's content reaches an element of the
    page. *)
Definition resolves (p : Page) : Prop :=
  ∀ selector element,
    content p !! selector = Some element → is_Some (elements p !! element).

(** Every binding of the sheet has its listener on its element. *)
Definition listens (sh : Sheet.t) (p : Page) : Prop :=
  ∀ key element,
    (key, element) ∈ Sheet.inputs sh →
    ∃ el mode, elements p !! element = Some el ∧
               mkListener mode key element ∈ listeners el.

(** The elements of [p] are still in [p'], with at least the listeners
    they had. *)
Definition keeps_listeners (p p' : Page) : Prop :=
  ∀ e el, elements p !! e = Some el →
    ∃ el', elements p' !! e = Some el' ∧
           ∀ l, l ∈ listeners el → l ∈ listeners el'.

(** ** Sheet classes that bind fields *)

(** A subclass that defines [onLoad] (the base class has none, and line 32
    of [load] would throw without it) as a method that does nothing, and
    whose [addListeners] makes the given calls of [registerInput]
    (immediate) and [registerBatchedInput] (batched), in order. *)
Definition binding_op (b : Mode * string * string) : Op :=
  match b with
  | (Immediate, selector, key) => RegisterInput selector key
  | (Batched, selector, key) => RegisterBatchedInput selector key
  end.

Definition bind_all (bs : list (Mode * string * string))
    (sh : Sheet.t) (p : Page) : Sheet.t * Page :=
  apply_ops (binding_op <$> bs) (sh, p).

Definition binding_sheet (bs : list (Mode * string * string)) : SheetClass :=
  mkSheetClass (λ _ sh p, (sh, p)) (bind_all bs).

(** The bindings that [bind_all] adds: those whose selector is found. *)
Definition resolved (c : gmap string elem_id)
    (bs : list (Mode * string * string)) : list (string * elem_id) :=
  omap (λ b, (λ element, (b.2, element)) <$> (c !! b.1.2)) bs.

(** The events of a [load] that runs to its end. *)
Definition loading (id : Val) (response : Response) (sheetClass : SheetClass)
    (fragment : Fragment) : list CharacterSheetWindow.Event :=
  [CharacterSheetWindow.Load id;
   CharacterSheetWindow.Resume SuperLoaded;
   CharacterSheetWindow.Resume (Fetched response);
   CharacterSheetWindow.Resume (Imported sheetClass);
   CharacterSheetWindow.Resume CssLoaded;
   CharacterSheetWindow.Resume (HtmlLoaded fragment);
   CharacterSheetWindow.Resume Subscribed].

(** ** States of a window whose [load] has been called *)

(** [load] is suspended at an [await]. *)
Definition suspended (ph : CharacterSheetWindow.Phase) : bool :=
  match ph with
  | CharacterSheetWindow.Unloaded | CharacterSheetWindow.Fulfilled
  | CharacterSheetWindow.Rejected => false
  | _ => true
  end.

(** What holds of a window from the call [load(id)] on: before the template
    arrives there is no sheet, no subscription and no notification; from
    then on there is either no sheet, no subscription and at most the
    notification of the failed fetch, or a sheet, at most the subscription
    to [id], and no notification. *)
Definition loaded_for (id : Val) (w : CharacterSheetWindow.t) : Prop :=
  match CharacterSheetWindow.phase w with
  | CharacterSheetWindow.Unloaded => False
  | CharacterSheetWindow.AwaitSuper i
  | CharacterSheetWindow.AwaitFetch i
  | CharacterSheetWindow.AwaitImport i _
  | CharacterSheetWindow.AwaitCss i _ _
  | CharacterSheetWindow.AwaitHtml i _ _ =>
      i = id ∧ CharacterSheetWindow.sheet w = None ∧
      CharacterSheetWindow.subscriptions w = [] ∧
      CharacterSheetWindow.toasts w = []
  | CharacterSheetWindow.AwaitSubscribe
  | CharacterSheetWindow.Fulfilled
  | CharacterSheetWindow.Rejected =>
      (CharacterSheetWindow.sheet w = None ∧
       CharacterSheetWindow.subscriptions w = [] ∧
       (CharacterSheetWindow.toasts w = [] ∨
        CharacterSheetWindow.toasts w = ["Character loading failed!"])) ∨
      (is_Some (CharacterSheetWindow.sheet w) ∧
       (CharacterSheetWindow.subscriptions w = [] ∨
        CharacterSheetWindow.subscriptions w = [id]) ∧
       CharacterSheetWindow.toasts w = [])
  end.

(** ** The main page ([frontend/src/pages/main.ts]) *)

(** JavaScript truthiness of a scalar. *)
Definition truthy (v : Val) : bool :=
  match v with
  | VUndefined | VNull => false
  | VBool b => b
  | VNum n => negb (n =? 0)%Z
  | VStr s => negb (bool_decide (s = EmptyString))
  end.

(** [a == "success"]. *)
Definition loose_eq_str (a : Val) (s : string) : bool :=
  bool_decide (a = VStr s).

Module Main.

(** [localStorage] at the three keys the page uses.  The item [layouts]
    holds the JSON text of an object from layout names to layouts; it is
    modelled by that object, each layout being kept as its JSON text. *)
Record Storage := mkStorage {
  token : option string;
  defaultLayout : option string;
  layouts : option (gmap string string);
}.

Record SessionState := mkSession {
  session_token : Val;
  session_gm : Val;
  session_id : Val;
  session_user : Data;
  session_username : Val;
}.

Inductive LogLine :=
| ConsoleLog (text : string)
| ConsoleError (v : Val).

(** What the page does to its windows.  [applyLayout] is called with a
    saved layout, with [undefined], or with what every object inherits
    under a name of [Object.prototype]. *)
Inductive UiAction :=
| CloseWindows
| ApplyLayout (layout : option string)
| ApplyInherited (name : string)
| OpenCharacterCreator
| OpenChat.

(** The names every object inherits from [Object.prototype]. *)
Definition inherited_names : list string :=
  ["constructor"; "__defineGetter__"; "__defineSetter__"; "hasOwnProperty";
   "__lookupGetter__"; "__lookupSetter__"; "isPrototypeOf";
   "propertyIsEnumerable"; "toString"; "valueOf"; "__proto__";
   "toLocaleString"].

(** [applyLayout(layouts[name])] *)
Definition apply_named (m : gmap string string) (name : string) : UiAction :=
  match m !! name with
  | Some layout => ApplyLayout (Some layout)
  | None =>
      if bool_decide (name ∈ inherited_names) then ApplyInherited name
      else ApplyLayout None
  end.

Record t := mk {
  localStorage : Storage;
  Session : SessionState;
  location : list string;                   (* window.location.href = ... *)
  requests : list (string * option Obj);    (* ApiRequest(endpoint, body) *)
  intervals : list (Z * string);            (* setInterval(ApiRequest, ...) *)
  console : list LogLine;
  toasts : list string;                     (* ErrorToast *)
  ui : list UiAction;
}.

Definition set_localStorage (st : Storage) (b : t) : t :=
  mk st (Session b) (location b) (requests b) (intervals b) (console b)
     (toasts b) (ui b).

Definition set_Session (se : SessionState) (b : t) : t :=
  mk (localStorage b) se (location b) (requests b) (intervals b) (console b)
     (toasts b) (ui b).

Definition set_token (v : Val) (se : SessionState) : SessionState :=
  mkSession v (session_gm se) (session_id se) (session_user se)
            (session_username se).

Definition navigate (href : string) (b : t) : t :=
  mk (localStorage b) (Session b) (location b ++ [href]) (requests b)
     (intervals b) (console b) (toasts b) (ui b).

Definition ApiRequest (endpoint : string) (body : option Obj) (b : t) : t :=
  mk (localStorage b) (Session b) (location b)
     (requests b ++ [(endpoint, body)]) (intervals b) (console b) (toasts b)
     (ui b).

Definition setInterval (ms : Z) (endpoint : string) (b : t) : t :=
  mk (localStorage b) (Session b) (location b) (requests b)
     (intervals b ++ [(ms, endpoint)]) (console b) (toasts b) (ui b).

Definition log (l : LogLine) (b : t) : t :=
  mk (localStorage b) (Session b) (location b) (requests b) (intervals b)
     (console b ++ [l]) (toasts b) (ui b).

Definition ErrorToast (msg : string) (b : t) : t :=
  mk (localStorage b) (Session b) (location b) (requests b) (intervals b)
     (console b) (toasts b ++ [msg]) (ui b).

Definition act (a : UiAction) (b : t) : t :=
  mk (localStorage b) (Session b) (location b) (requests b) (intervals b)
     (console b) (toasts b) (ui b ++ [a]).

(** [LogOut()] *)
Definition LogOut (b : t) : t :=
  let st := localStorage b in
  let b := set_localStorage (mkStorage None (defaultLayout st) (layouts st))
                            b in
  let b := set_Session (set_token VNull (Session b)) b in
  let b := log (ConsoleLog "Logged out, redirecting to /login") b in
  navigate "/login" b.

(** The reply of [ApiRequest("/status")]. *)
Record StatusResponse := mkStatus {
  s_status : Val;
  s_reason : Val;
  s_user : Data;
}.

(** [OnLoad()] up to its first [await]: [false] when it has returned,
    [true] when it waits for the reply to [/status]. *)
Definition OnLoad (b : t) : t * bool :=
  match token (localStorage b) with
  | None =>
      let b := log (ConsoleError
                      (VStr "No token found in local storage, redirecting to /login"))
                   b in
      (navigate "/login" b, false)
  | Some tok =>
      let b := set_Session (set_token (VStr tok) (Session b)) b in
      (ApiRequest "/status" None b, true)
  end.

(** [OnLoad()] from the reply to [/status] to the initialisation of the
    rule sets (which, with what follows it, is left to the collaborators).
    Reading [response.user.is_gm] throws when the reply has no user. *)
Definition OnLoad_status (response : StatusResponse) (b : t) : Outcome t :=
  let b :=
    if strict_neq (s_status response) (VStr "success")
    then navigate "/login" (log (ConsoleError (s_reason response)) b)
    else b in
  let b := ApiRequest "/re-auth" None b in
  let b := setInterval 900000 "/re-auth" b in
  match s_user response with
  | DObject u =>
      Returned
        (set_Session
           (mkSession (session_token (Session b)) (prop u "is_gm")
                      (prop u "id") (DObject u) (prop u "name")) b)
  | DUndefined | DNull => Threw "TypeError" b
  end.

(** The reply of [ApiRequest("/character/list", { path })]. *)
Record ListResponse := mkList {
  list_status : Val;
  characters : option (list (Val * Val));
}.

(** The loop of [LoadCharacters]: [get n id] is the reply to the request
    for [id] made in round [n]. *)
Fixpoint load_each (get : nat → Val → Response) (n : nat)
    (cs : list (Val * Val)) (made : list (string * option Obj))
    (results : list Data) : list (string * option Obj) * list Data :=
  match cs with
  | [] => (made, results)
  | (id, _name) :: cs =>
      let made := made ++ [("/character/get", Some {[ "id" := id ]})] in
      let response := get n id in
      let results :=
        if loose_eq_str (status response) "success"
        then results ++ [character response]
        else results in
      load_each get (S n) cs made results
  end.


(** [LoadCharacters(path)]: the requests made, and the result.  The
    parameter defaults to [null] when the argument is [undefined]. *)
Definition LoadCharacters (path : Val) (listed : ListResponse)
    (get : nat → Val → Response)
  : list (string * option Obj) * Outcome (list Data) :=
  let path := match path with VUndefined => VNull | _ => path end in
  let made := [("/character/list", Some ({[ "path" := path ]} : Obj))] in
  if loose_neq_str (list_status listed) "success"
  then (made, Threw "Error: failed to list characters" [])
  else match characters listed with
       | None => (made, Threw "TypeError" [])
       | Some cs =>
           let '(made, results) := load_each get 0 cs made [] in
           (made, Returned results)
       end.

(** What the dialog of [Layout > Save] resolves to. *)
Record Selection := mkSelection {
  Name : string;
  Default : bool;
}.

Definition set_defaultLayout (d : option string) (st : Storage) : Storage :=
  mkStorage (token st) d (layouts st).

Definition set_layouts (m : gmap string string) (st : Storage) : Storage :=
  mkStorage (token st) (defaultLayout st) (Some m).

(** [Layout > Save], from the answer of its dialog on; [layout] is the
    JSON text of the array built from the open windows. *)
Definition Layout_Save (selection : option Selection) (layout : string)
    (b : t) : t :=
  match selection with
  | None => b
  | Some sel =>
      if bool_decide (Name sel = EmptyString) then b
      else
        let st := localStorage b in
        let st := if Default sel
                  then set_defaultLayout (Some (Name sel)) st else st in
        let m := default ∅ (layouts st) in
        set_localStorage (set_layouts (set_property (Name sel) layout m) st)
                         b
  end.

(** [Layout > Load] and [Layout > Delete] up to their dialog: the layouts
    read from the storage, or the error when there are none. *)
Definition Layout_read (b : t) : t * option (gmap string string) :=
  match layouts (localStorage b) with
  | Some m =>
      if bool_decide (m = ∅) then (ErrorToast "No layouts saved." b, None)
      else (b, Some m)
  | None => (ErrorToast "No layouts saved." b, None)
  end.

(** [Layout > Delete] from the answer of its dialog on, with the layouts
    it read before. *)
Definition Layout_Delete_chosen (read : gmap string string)
    (selection : option string) (b : t) : t :=
  match selection with
  | None => b
  | Some name =>
      let st := localStorage b in
      let st := if bool_decide (defaultLayout st = Some name)
                then set_defaultLayout None st else st in
      set_localStorage (set_layouts (delete name read) st) b
  end.

(** [Layout > Delete] when nothing happens while its dialog is open. *)
Definition Layout_Delete (selection : option string) (b : t) : t :=
  let '(b, read) := Layout_read b in
  match read with
  | Some m => Layout_Delete_chosen m selection b
  | None => b
  end.

(** [Layout > Load] from the answer of its dialog on. *)
Definition Layout_Load_chosen (read : gmap string string)
    (selection : option string) (b : t) : t :=
  match selection with
  | None => b
  | Some name => act (apply_named read name) (act CloseWindows b)
  end.

Definition Layout_Load (selection : option string) (b : t) : t :=
  let '(b, read) := Layout_read b in
  match read with
  | Some m => Layout_Load_chosen m selection b
  | None => b
  end.

(** The end of [Main()]: the window the page opens with.  [intro] says
    whether [IntroRegistry.html] is there. *)
Definition startup (intro : bool) (b : t) : Outcome t :=
  let creator :=
    if truthy (session_gm (Session b)) then Some false
    else match session_user (Session b) with
         | DObject u => Some (negb (truthy (prop u "character_id")) && intro)
         | DUndefined | DNull => None
         end in
  match creator with
  | None => Threw "TypeError" b
  | Some true => Returned (act OpenCharacterCreator b)
  | Some false =>
      match defaultLayout (localStorage b) with
      | Some name =>
          match layouts (localStorage b) with
          | Some m => Returned (act (apply_named m name) b)
          | None => Threw "TypeError" b
          end
      | None => Returned (act OpenChat b)
      end
  end.

(** The default layout, when there is one, is a saved layout. *)
Definition default_is_saved (st : Storage) : Prop :=
  ∀ name, defaultLayout st = Some name →
          ∃ m, layouts st = Some m ∧ is_Some (m !! name).

End Main.

(** ** The login page ([src/js/login.js]) *)

Module Login.

Inductive Request :=
| StatusRequest                                  (* ApiRequest("/status") *)
| LoginRequest (username password : string).

(** What [console.log] is called with. *)
Inductive Line :=
| AuthStatus (status : Val)
| AuthSuccessful
| Credentials (username password : string).

Record t := mk {
  token : option string;          (* localStorage.getItem("token") *)
  session_token : option string;  (* RequestSession.token *)
  awaiting_status : bool;         (* the ready handler waits for /status *)
  installed : bool;               (* the click handler is on the button *)
  pending : nat;                  (* click handlers waiting for a reply *)
  location : list string;         (* window.location.href = ... *)
  requests : list Request;
  console : list Line;
  toasts : list string;           (* ErrorToast *)
}.

(** The page as it is loaded, with what the storage holds. *)
Definition loaded (tok : option string) : t :=
  mk tok None false false 0 [] [] [] [].

Definition navigate (href : string) (l : t) : t :=
  mk (token l) (session_token l) (awaiting_status l) (installed l)
     (pending l) (location l ++ [href]) (requests l) (console l) (toasts l).

Definition log (line : Line) (l : t) : t :=
  mk (token l) (session_token l) (awaiting_status l) (installed l)
     (pending l) (location l) (requests l) (console l ++ [line]) (toasts l).

Definition send (r : Request) (l : t) : t :=
  mk (token l) (session_token l) (awaiting_status l) (installed l)
     (pending l) (location l) (requests l ++ [r]) (console l) (toasts l).

Definition ErrorToast (msg : string) (l : t) : t :=
  mk (token l) (session_token l) (awaiting_status l) (installed l)
     (pending l) (location l) (requests l) (console l) (toasts l ++ [msg]).

(** The end of the ready handler: the click handler is put on the
    button. *)
Definition install (l : t) : t :=
  mk (token l) (session_token l) false true (pending l) (location l)
     (requests l) (console l) (toasts l).

(** The ready handler up to its [await], or to its end when the token is
    null or empty. *)
Definition ready (l : t) : t :=
  let l := mk (token l) (token l) (awaiting_status l) (installed l)
              (pending l) (location l) (requests l) (console l) (toasts l) in
  match session_token l with
  | Some tok =>
      if bool_decide (tok = EmptyString) then install l
      else
        let l := send StatusRequest l in
        mk (token l) (session_token l) true (installed l) (pending l)
           (location l) (requests l) (console l) (toasts l)
  | None => install l
  end.

(** The ready handler from the reply to [/status] on. *)
Definition status_reply (status : Val) (l : t) : t :=
  if awaiting_status l then
    let l := log (AuthStatus status) l in
    let l :=
      if strict_neq status (VStr "success") then l
      else navigate "/" (log AuthSuccessful l) in
    install l
  else l.

(** A click on the button: the handler, if it is installed, logs what was
    typed and sends the login request. *)
Definition click (username password : string) (l : t) : t :=
  if installed l then
    let l := log (Credentials username password) l in
    let l := send (LoginRequest username password) l in
    mk (token l) (session_token l) (awaiting_status l) (installed l)
       (S (pending l)) (location l) (requests l) (console l) (toasts l)
  else l.

(** A click handler from the reply to its login request on. *)
Definition login_reply (status : Val) (l : t) : t :=
  match pending l with
  | 0 => l
  | S n =>
      let l := mk (token l) (session_token l) (awaiting_status l)
                  (installed l) n (location l) (requests l) (console l)
                  (toasts l) in
      if strict_neq status (VStr "success")
      then ErrorToast "Login failed." l
      else navigate "/" (log AuthSuccessful l)
  end.

Inductive Event :=
| StatusReply (status : Val)
| Click (username password : string)
| LoginReply (status : Val).

Definition step (l : t) (ev : Event) : t :=
  match ev with
  | StatusReply status => status_reply status l
  | Click username password => click username password l
  | LoginReply status => login_reply status l
  end.

(** The page from its load on. *)
Definition run (tok : option string) (evs : list Event) : t :=
  foldl step (ready (loaded tok)) evs.

Definition succeeds (ev : Event) : bool :=
  match ev with
  | StatusReply status | LoginReply status =>
      bool_decide (status = VStr "success")
  | Click _ _ => false
  end.

Definition is_click (ev : Event) : bool :=
  match ev with Click _ _ => true | _ => false end.

(** A reply to a login request whose status is not "success". *)
Definition fails (ev : Event) : bool :=
  match ev with
  | LoginReply status => bool_decide (status ≠ VStr "success")
  | StatusReply _ | Click _ _ => false
  end.

End Login.

(** * Properties *)

(** ** Reading properties *)


Lemma strict_neq_false (a b : Val) : strict_neq a b = false ↔ a = b.
Proof.
  unfold strict_neq. rewrite bool_decide_eq_false.
  split; [apply dec_stable | auto].
Qed.

Lemma prop_delete_ne (o : Obj) (k k' : string) :
  k ≠ k' → prop (delete k o) k' = prop o k'.
Proof. intros Hne. unfold prop. by rewrite lookup_delete_ne. Qed.

(** ** The loop of [update] *)

Section UpdateLoop.

Variables (data : Obj) (i : Val) (cache : Obj).

Lemma update_inputs_nil (p : Page) :
  Sheet.update_inputs data (Sheet.mk i cache []) p = p.
Proof. reflexivity. Qed.

Lemma update_inputs_cons key element ins (p : Page) :
  Sheet.update_inputs data (Sheet.mk i cache ((key, element) :: ins)) p =
  Sheet.update_inputs data (Sheet.mk i cache ins)
    (if strict_neq (prop data key) (prop cache key)
     then assign_value element (prop data key) p else p).
Proof. reflexivity. Qed.

(** The loop touches nothing but element values and the write history. *)
Lemma update_inputs_frame ins (p : Page) :
  let p' := Sheet.update_inputs data (Sheet.mk i cache ins) p in
  content p' = content p ∧ titleNode p' = titleNode p ∧
  activeElement p' = activeElement p ∧ console p' = console p ∧
  outbound p' = outbound p.
Proof.
  revert p. induction ins as [|[key element] ins IH]; intros p; simpl.
  - by rewrite update_inputs_nil.
  - rewrite update_inputs_cons.
    destruct (strict_neq _ _); [|apply IH].
    specialize (IH (assign_value element (prop data key) p)).
    simpl in IH. apply IH.
Qed.

Lemma update_inputs_writes ins (p : Page) :
  writes (Sheet.update_inputs data (Sheet.mk i cache ins) p) =
  writes p ++ input_writes data cache ins.
Proof.
  revert p. induction ins as [|[key element] ins IH]; intros p.
  - rewrite update_inputs_nil. unfold input_writes, changed_inputs.
    simpl. by rewrite app_nil_r.
  - rewrite update_inputs_cons, IH.
    unfold input_writes, changed_inputs. rewrite filter_cons. simpl.
    unfold strict_neq. case_bool_decide as Hd; destruct (decide _); try done.
    simpl. by rewrite <- app_assoc.
Qed.

Lemma update_inputs_lookup ins (p : Page) (element : elem_id) :
  elements (Sheet.update_inputs data (Sheet.mk i cache ins) p) !! element =
  (λ el, with_value (final_value data cache ins element (value el)) el)
    <$> (elements p !! element).
Proof.
  revert p. induction ins as [|[key element'] ins IH]; intros p.
  - rewrite update_inputs_nil. simpl.
    destruct (elements p !! element) as [[v ls]|]; reflexivity.
  - rewrite update_inputs_cons, IH. simpl.
    destruct (strict_neq (prop data key) (prop cache key)); simpl; [|done].
    rewrite lookup_alter. case_bool_decide as He; case_decide; try congruence.
    subst element'. destruct (elements p !! element) as [[v ls]|]; reflexivity.
Qed.

Lemma update_inputs_focus ins (p : Page) (a : option elem_id) :
  Sheet.update_inputs data (Sheet.mk i cache ins) (set_activeElement a p) =
  set_activeElement a (Sheet.update_inputs data (Sheet.mk i cache ins) p).
Proof.
  revert p. induction ins as [|[key element] ins IH]; intros p.
  - by rewrite !update_inputs_nil.
  - rewrite !update_inputs_cons.
    destruct (strict_neq _ _); [|apply IH].
    rewrite <- IH. reflexivity.
Qed.

(** An element none of whose keys changed keeps its text. *)
Lemma final_value_unchanged ins element old :
  (∀ key, (key, element) ∈ ins → prop data key = prop cache key) →
  final_value data cache ins element old = old.
Proof.
  revert old. induction ins as [|[key element'] ins IH]; intros old H.
  - reflexivity.
  - simpl. rewrite IH.
    + case_bool_decide as He; [|by rewrite andb_false_r]. subst element'.
      assert (strict_neq (prop data key) (prop cache key) = false) as ->;
        [|done].
      apply strict_neq_false, H. left.
    + intros k Hk. apply H. by right.
Qed.



(** The text shown after the loop is either the old one or one that does
    not depend on it. *)
Lemma final_value_either ins element old old' :
  final_value data cache ins element old =
    final_value data cache ins element old' ∨
  (final_value data cache ins element old = old ∧
   final_value data cache ins element old' = old').
Proof.
  revert old old'. induction ins as [|[key element'] ins IH]; intros old old'.
  - right. done.
  - simpl.
    destruct (strict_neq (prop data key) (prop cache key)
              && bool_decide (element' = element)).
    + left. reflexivity.
    + apply IH.
Qed.

Lemma final_value_idem ins element old :
  final_value data cache ins element
    (final_value data cache ins element old) =
  final_value data cache ins element old.
Proof.
  destruct (final_value_either ins element old
              (final_value data cache ins element old)) as [H|[_ H]];
    congruence.
Qed.

End UpdateLoop.

(** ** [Sheet.update] *)

Lemma update_object_unfold (data : Obj) (sh : Sheet.t) (p : Page) :
  Sheet.update_object data sh p =
  (sh, Sheet.update_inputs data sh
         (if strict_neq (prop data "name") (prop (Sheet.cachedData sh) "name")
          then assign_textContent (prop data "name") p else p)).
Proof. reflexivity. Qed.

Lemma update_object_writes (data : Obj) (sh : Sheet.t) (p : Page) :
  writes (Sheet.update_object data sh p).2 =
  writes p ++ title_writes data (Sheet.cachedData sh)
    ++ input_writes data (Sheet.cachedData sh) (Sheet.inputs sh).
Proof.
  rewrite update_object_unfold. destruct sh as [i cache ins]. simpl.
  rewrite update_inputs_writes. unfold title_writes.
  destruct (strict_neq _ _); simpl; [by rewrite <- app_assoc | done].
Qed.

Lemma update_object_lookup (data : Obj) (sh : Sheet.t) (p : Page) element :
  elements (Sheet.update_object data sh p).2 !! element =
  (λ el, with_value
           (final_value data (Sheet.cachedData sh) (Sheet.inputs sh) element
                        (value el)) el)
    <$> (elements p !! element).
Proof.
  rewrite update_object_unfold. destruct sh as [i cache ins]. simpl.
  rewrite update_inputs_lookup. by destruct (strict_neq _ _).
Qed.

Lemma update_object_value (data : Obj) (sh : Sheet.t) (p : Page) element :
  is_Some (elements p !! element) →
  value_of element (Sheet.update_object data sh p).2 =
  final_value data (Sheet.cachedData sh) (Sheet.inputs sh) element
              (value_of element p).
Proof.
  intros [el Hel]. unfold value_of.
  rewrite update_object_lookup, Hel. reflexivity.
Qed.

Lemma update_object_title (data : Obj) (sh : Sheet.t) (p : Page) :
  titleNode (Sheet.update_object data sh p).2 =
  if strict_neq (prop data "name") (prop (Sheet.cachedData sh) "name")
  then to_text_content (prop data "name") else titleNode p.
Proof.
  rewrite update_object_unfold. destruct sh as [i cache ins]. simpl.
  destruct (update_inputs_frame data i cache ins
    (if strict_neq (prop data "name") (prop cache "name")
     then assign_textContent (prop data "name") p else p)) as (_ & -> & _).
  by destruct (strict_neq _ _).
Qed.

Lemma update_object_frame (data : Obj) (sh : Sheet.t) (p : Page) :
  let p' := (Sheet.update_object data sh p).2 in
  content p' = content p ∧ activeElement p' = activeElement p ∧
  console p' = console p ∧ outbound p' = outbound p.
Proof.
  rewrite update_object_unfold. destruct sh as [i cache ins]. simpl.
  destruct (update_inputs_frame data i cache ins
    (if strict_neq (prop data "name") (prop cache "name")
     then assign_textContent (prop data "name") p else p))
    as (-> & _ & -> & -> & ->).
  by destruct (strict_neq _ _).
Qed.

Lemma update_object_focus (data : Obj) (sh : Sheet.t) (p : Page) a :
  (Sheet.update_object data sh (set_activeElement a p)).2 =
  set_activeElement a (Sheet.update_object data sh p).2.
Proof.
  rewrite !update_object_unfold. destruct sh as [i cache ins]. simpl.
  destruct (strict_neq _ _); rewrite <- update_inputs_focus; reflexivity.
Qed.

(** The loop reads the payload only at the bound keys. *)
Lemma update_inputs_ext (d1 d2 : Obj) i cache ins (p : Page) :
  (∀ key element, (key, element) ∈ ins → prop d1 key = prop d2 key) →
  Sheet.update_inputs d1 (Sheet.mk i cache ins) p =
  Sheet.update_inputs d2 (Sheet.mk i cache ins) p.
Proof.
  revert p. induction ins as [|[key element] ins IH]; intros p H.
  - reflexivity.
  - rewrite !update_inputs_cons, (H key element) by left.
    apply IH. intros k e Hk. apply (H k e). by right.
Qed.

Lemma update_returns (data : Obj) (sh : Sheet.t) (p : Page) :
  Sheet.update (DObject data) sh p = Returned (Sheet.update_object data sh p).
Proof. reflexivity. Qed.

Lemma state_of_update (data : Obj) (sh : Sheet.t) (p : Page) :
  state_of (Sheet.update (DObject data) sh p) = Sheet.update_object data sh p.
Proof. reflexivity. Qed.

(** C1 (amended).  [Sheet.update] leaves the text of a bound element
    unchanged when the payload agrees with the cache on every key the
    element is bound under.  Focus plays no part in it: with any element
    focused, or none, the call does the same to the page. *)
Theorem update_keeps_unchanged_fields
    (data : Obj) (sh : Sheet.t) (p : Page) (element : elem_id) :
  (∀ key, (key, element) ∈ Sheet.inputs sh →
          prop data key = prop (Sheet.cachedData sh) key) →
  ∀ focus : option elem_id,
    let p' := (state_of (Sheet.update (DObject data) sh
                           (set_activeElement focus p))).2 in
    value_of element p' = value_of element p ∧
    p' = set_activeElement focus
           (state_of (Sheet.update (DObject data) sh p)).2.
Proof.
  intros Hsame focus p'. subst p'. rewrite !state_of_update.
  split; [|apply update_object_focus].
  unfold value_of. rewrite update_object_lookup.
  change (elements (set_activeElement focus p)) with (elements p).
  destruct (elements p !! element) as [el|]; [|done].
  simpl. by rewrite final_value_unchanged.
Qed.

Lemma update_keeps_unchanged_fields_witness :
  let data : Obj := {[ "hp" := VStr "ab" ]} in
  let p' := (state_of (Sheet.update (DObject data) Sample.cached_sheet
                         (set_activeElement (Some 0) Sample.page))).2 in
  value_of 0 p' = value_of 0 Sample.page ∧
  p' = set_activeElement (Some 0)
         (state_of (Sheet.update (DObject data) Sample.cached_sheet
                      Sample.page)).2.
Proof.
  apply (update_keeps_unchanged_fields
           {[ "hp" := VStr "ab" ]} Sample.cached_sheet Sample.page 0).
  intros key Hkey.
  change (Sheet.inputs Sample.cached_sheet) with [("hp", 0)] in Hkey.
  apply list_elem_of_singleton in Hkey.
  injection Hkey as ->. reflexivity.
Defined.

(** C1, as stated, fails: the focused field [.hp] shows the text being
    typed, and a payload with another value for [hp] replaces it. *)
Lemma focused_input_overwritten :
  has_focus 0 Sample.page ∧
  ("hp", 0) ∈ Sheet.inputs Sample.sheet ∧
  value_of 0 Sample.page = "ab" ∧
  value_of 0 (state_of (Sheet.update (DObject Sample.hp10) Sample.sheet
                          Sample.page)).2 = "10".
Proof.
  split; [reflexivity|]. split; [left|]. split; reflexivity.
Qed.

(** C2 (amended).  [Sheet.update] never writes the cache: after the call
    [cachedData] is what it was.  To an element bound under one key it
    assigns the payload's value for that key, converted to a string,
    exactly when that value differs from the cached one; when it does not
    differ the call assigns nothing to the element, whose text stays as it
    was. *)
Theorem update_never_writes_cache
    (data : Obj) (sh : Sheet.t) (p : Page) (key : string) (element : elem_id) :
  (key, element) ∈ Sheet.inputs sh →
  (∀ key', (key', element) ∈ Sheet.inputs sh → key' = key) →
  let st := state_of (Sheet.update (DObject data) sh p) in
  let changed := prop data key ≠ prop (Sheet.cachedData sh) key in
  Sheet.cachedData st.1 = Sheet.cachedData sh ∧
  (∀ text,
     SetValue element text ∈ drop (length (writes p)) (writes st.2) ↔
     changed ∧ text = to_value_string (prop data key)) ∧
  (¬ changed → value_of element st.2 = value_of element p).
Proof.
  intros Hin Hone st changed. subst st changed. rewrite state_of_update.
  split; [reflexivity|]. split.
  - intros text. rewrite update_object_writes, drop_app_length.
    rewrite elem_of_app. unfold title_writes, input_writes, changed_inputs.
    rewrite list_elem_of_fmap. split.
    + intros [Ht|([k e] & Heq & Hb)].
      * destruct (strict_neq _ _); [|by apply elem_of_nil in Ht].
        by apply list_elem_of_singleton in Ht.
      * apply list_elem_of_filter in Hb as [Hne Hb]. simpl in *.
        injection Heq as <- ->. by rewrite (Hone k Hb) in *.
    + intros [Hne ->]. right. exists (key, element). split; [done|].
      by apply list_elem_of_filter.
  - intros Hsame. unfold value_of. rewrite update_object_lookup.
    destruct (elements p !! element) as [el|]; [|done]. simpl.
    apply final_value_unchanged. intros k Hk. rewrite (Hone k Hk).
    by apply dec_stable.
Qed.

Lemma update_never_writes_cache_witness :
  let st := state_of (Sheet.update (DObject Sample.hp10) Sample.sheet
                        Sample.page) in
  let changed :=
    prop Sample.hp10 "hp" ≠ prop (Sheet.cachedData Sample.sheet) "hp" in
  Sheet.cachedData st.1 = Sheet.cachedData Sample.sheet ∧
  (∀ text,
     SetValue 0 text ∈ drop (length (writes Sample.page)) (writes st.2) ↔
     changed ∧ text = to_value_string (prop Sample.hp10 "hp")) ∧
  (¬ changed → value_of 0 st.2 = value_of 0 Sample.page).
Proof.
  apply (update_never_writes_cache Sample.hp10 Sample.sheet Sample.page
           "hp" 0).
  - left.
  - intros key' Hkey.
    change (Sheet.inputs Sample.sheet) with [("hp", 0)] in Hkey.
    apply list_elem_of_singleton in Hkey.
    by injection Hkey.
Defined.

(** C2, as stated, fails: after a payload that sets [hp], the field shows
    the new text while the cache still has no [hp]. *)
Lemma cache_differs_from_display :
  let st := state_of (Sheet.update (DObject Sample.hp10) Sample.sheet
                        Sample.page) in
  ("hp", 0) ∈ Sheet.inputs st.1 ∧
  value_of 0 st.2 = "10" ∧
  prop (Sheet.cachedData st.1) "hp" = VUndefined ∧
  prop (Sheet.cachedData st.1) "hp" ≠ VStr (value_of 0 st.2) ∧
  to_value_string (prop (Sheet.cachedData st.1) "hp") ≠ value_of 0 st.2.
Proof.
  simpl. split; [left|]. repeat split; done.
Qed.

(** C3 (amended).  Applying [Sheet.update] twice with one payload compares
    against the same, unchanged cache both times: the second call makes
    exactly the writes of the first, and leaves the sheet, the title and
    every element as the first call left them. *)
Theorem update_twice_repeats_writes (data : Obj) (sh : Sheet.t) (p : Page) :
  let s1 := state_of (Sheet.update (DObject data) sh p) in
  let s2 := state_of (Sheet.update (DObject data) s1.1 s1.2) in
  let w := title_writes data (Sheet.cachedData sh)
           ++ input_writes data (Sheet.cachedData sh) (Sheet.inputs sh) in
  writes s1.2 = writes p ++ w ∧
  writes s2.2 = writes s1.2 ++ w ∧
  s2.1 = s1.1 ∧
  Sheet.cachedData s1.1 = Sheet.cachedData sh ∧
  elements s2.2 = elements s1.2 ∧
  titleNode s2.2 = titleNode s1.2.
Proof.
  intros s1 s2 w. subst s1 s2 w. rewrite !state_of_update.
  split; [apply update_object_writes|].
  split; [apply update_object_writes|].
  split; [reflexivity|]. split; [reflexivity|]. split.
  - apply map_eq. intros element.
    change (Sheet.update_object data sh p).1 with sh.
    rewrite update_object_lookup, update_object_lookup.
    destruct (elements p !! element) as [el|]; [|done].
    simpl. f_equal. unfold with_value. simpl.
    by rewrite final_value_idem.
  - change (Sheet.update_object data sh p).1 with sh.
    rewrite (update_object_title data sh (Sheet.update_object data sh p).2).
    rewrite update_object_title. by destruct (strict_neq _ _).
Qed.

(** C3, as stated, fails: the second application of a payload finds the
    same keys changed and writes the title and the field again. *)
Lemma second_update_writes_again :
  let s1 := state_of (Sheet.update (DObject Sample.zog_hp10) Sample.sheet
                        Sample.page) in
  let s2 := state_of (Sheet.update (DObject Sample.zog_hp10) s1.1 s1.2) in
  writes s1.2 = [SetTextContent "Zog"; SetValue 0 "10"] ∧
  changed_inputs Sample.zog_hp10 (Sheet.cachedData s1.1) (Sheet.inputs s1.1)
    = [("hp", 0)] ∧
  writes s2.2 = writes s1.2 ++ [SetTextContent "Zog"; SetValue 0 "10"].
Proof. repeat split; reflexivity. Qed.

(** C4 (amended).  The writes of [Sheet.update] are: the title, when
    [data.name !== cachedData.name]; then, in binding order, every bound
    element whose key [k] has [data[k] !== cachedData[k]], a key absent
    from either object reading as [undefined].  A payload key that is not
    bound writes nothing; a bound key absent from the payload is written
    (as [undefined]) when the cache holds a value for it.  On the bound
    keys that the payload has, this is the specification's [diff]. *)
Theorem update_writes_changed_bindings
    (data : Obj) (sh : Sheet.t) (p : Page) :
  let cache := Sheet.cachedData sh in
  writes (state_of (Sheet.update (DObject data) sh p)).2 =
    writes p ++ title_writes data cache
      ++ input_writes data cache (Sheet.inputs sh) ∧
  (∀ b, b ∈ changed_inputs data cache (Sheet.inputs sh) ↔
        b ∈ Sheet.inputs sh ∧ prop data b.1 ≠ prop cache b.1) ∧
  (∀ b, b ∈ Sheet.inputs sh ∧ b.1 ∈ dom data →
        (b ∈ changed_inputs data cache (Sheet.inputs sh) ↔
         b.1 ∈ diff cache data)).
Proof.
  intros cache. subst cache. rewrite state_of_update.
  split; [apply update_object_writes|]. split.
  - intros b. unfold changed_inputs. rewrite list_elem_of_filter. tauto.
  - intros b [Hb Hdom]. unfold changed_inputs, diff.
    rewrite list_elem_of_filter, elem_of_filter. tauto.
Qed.

(** C4, as stated, fails: [hp] is cached and bound, the payload has only
    [name]; [hp] is not in the specification's [diff], yet its element is
    written. *)
Lemma absent_key_is_written :
  let st := state_of (Sheet.update (DObject Sample.zog) Sample.cached_sheet
                        Sample.page) in
  ("hp" ∉ dom Sample.zog) ∧
  ("hp" ∉ diff (Sheet.cachedData Sample.cached_sheet) Sample.zog) ∧
  changed_inputs Sample.zog (Sheet.cachedData Sample.cached_sheet)
    (Sheet.inputs Sample.cached_sheet) = [("hp", 0)] ∧
  writes st.2 = [SetTextContent "Zog"; SetValue 0 "undefined"] ∧
  value_of 0 Sample.page = "ab" ∧
  value_of 0 st.2 = "undefined".
Proof.
  assert ("hp" ∉ dom Sample.zog) as Hdom.
  { unfold Sample.zog. rewrite dom_singleton_L. set_solver. }
  split; [done|]. split; [|repeat split; reflexivity].
  unfold diff. rewrite elem_of_filter. tauto.
Qed.

(** The scenario of the specification: cache [{hp: 10}], payload
    [{hp: 10, name: "Zog"}]; only [name] has changed, the field is left
    alone and the title becomes "Zog". *)
Example scenario_zog :
  let data : Obj := <[ "name" := VStr "Zog" ]> {[ "hp" := VNum 10 ]} in
  let sh := Sheet.mk (VStr "c1") {[ "hp" := VNum 10 ]} [("hp", 0)] in
  let st := state_of (Sheet.update (DObject data) sh Sample.page) in
  diff (Sheet.cachedData sh) data = {[ "name" ]} ∧
  writes st.2 = [SetTextContent "Zog"] ∧
  value_of 0 st.2 = value_of 0 Sample.page ∧
  titleNode st.2 = "Zog".
Proof.
  split; [|repeat split; reflexivity].
  apply set_eq. intros k. unfold diff.
  rewrite elem_of_filter, elem_of_singleton, elem_of_dom.
  split.
  - intros [Hne [v Hv]].
    destruct (decide (k = "name")) as [|Hn]; [done|].
    destruct (decide (k = "hp")) as [->|Hh]; [done|].
    by rewrite lookup_insert_ne, lookup_singleton_ne in Hv.
  - intros ->. split; [done|]. by eexists.
Qed.

(** C5 (amended).  For every payload that is an object, [Sheet.update]
    returns without throwing and logs nothing.  It makes no check of the
    entity id: unless a field is bound under the key [id], the payload
    without its [id] is applied exactly as the payload with it. *)
Theorem update_returns_and_ignores_id
    (data : Obj) (sh : Sheet.t) (p : Page) :
  (∀ element, ("id", element) ∉ Sheet.inputs sh) →
  Sheet.update (DObject data) sh p
    = Returned (Sheet.update_object data sh p) ∧
  console (Sheet.update_object data sh p).2 = console p ∧
  Sheet.update (DObject (delete "id" data)) sh p
    = Sheet.update (DObject data) sh p.
Proof.
  intros Hid. split; [reflexivity|]. split.
  - by destruct (update_object_frame data sh p) as (_ & _ & -> & _).
  - rewrite !update_returns, !update_object_unfold. do 2 f_equal.
    rewrite (prop_delete_ne data "id" "name") by done.
    destruct sh as [i cache ins]. apply update_inputs_ext.
    intros key element Hin. apply prop_delete_ne.
    intros <-. by apply (Hid element).
Qed.

Lemma update_returns_and_ignores_id_witness :
  Sheet.update (DObject Sample.character) Sample.sheet Sample.page
    = Returned (Sheet.update_object Sample.character Sample.sheet
                  Sample.page) ∧
  console (Sheet.update_object Sample.character Sample.sheet Sample.page).2
    = console Sample.page ∧
  Sheet.update (DObject (delete "id" Sample.character)) Sample.sheet
               Sample.page
    = Sheet.update (DObject Sample.character) Sample.sheet Sample.page.
Proof.
  apply (update_returns_and_ignores_id Sample.character Sample.sheet
           Sample.page).
  intros element Hin.
  change (Sheet.inputs Sample.sheet) with [("hp", 0)] in Hin.
  apply list_elem_of_singleton in Hin. discriminate Hin.
Defined.

(** C5, as stated, fails: a payload without an entity id is not dropped;
    its [name] becomes the title, and nothing is logged. *)
Lemma payload_without_id_is_applied :
  let st := state_of (Sheet.update (DObject Sample.zog) Sample.sheet
                        Sample.page) in
  Sample.zog !! "id" = None ∧
  titleNode Sample.page = "Sheet" ∧
  titleNode st.2 = "Zog" ∧
  console st.2 = [].
Proof. repeat split; reflexivity. Qed.

(** [update] throws on a payload that is not there at all. *)
Lemma update_undefined_throws (sh : Sheet.t) (p : Page) :
  Sheet.update DUndefined sh p = Threw "TypeError" (sh, p).
Proof. reflexivity. Qed.

(** ** Binding *)

(** C8.  When the selector resolves to no element, [registerInput] and
    [registerBatchedInput] return null and log the failure; the sheet and
    the page are otherwise as before: no binding is added, no listener is
    attached, nothing is sent, and no exception is raised. *)
Theorem register_missing_selector
    (selector key : string) (sh : Sheet.t) (p : Page) :
  content p !! selector = None →
  Sheet.registerInput selector key sh p
    = (None, sh, console_error (Sheet.not_found selector) p) ∧
  Sheet.registerBatchedInput selector key sh p
    = (None, sh, console_error (Sheet.not_found selector) p) ∧
  elements (console_error (Sheet.not_found selector) p) = elements p ∧
  content (console_error (Sheet.not_found selector) p) = content p ∧
  outbound (console_error (Sheet.not_found selector) p) = outbound p ∧
  console (console_error (Sheet.not_found selector) p)
    = console p ++ [Sheet.not_found selector].
Proof.
  intros Hnone. unfold Sheet.registerInput, Sheet.registerBatchedInput.
  rewrite Hnone. repeat split.
Qed.

Lemma register_missing_selector_witness :
  Sheet.registerInput ".missing-field" "mp" Sample.sheet Sample.page
    = (None, Sample.sheet,
       console_error (Sheet.not_found ".missing-field") Sample.page) ∧
  Sheet.registerBatchedInput ".missing-field" "mp" Sample.sheet Sample.page
    = (None, Sample.sheet,
       console_error (Sheet.not_found ".missing-field") Sample.page) ∧
  elements (console_error (Sheet.not_found ".missing-field") Sample.page)
    = elements Sample.page ∧
  content (console_error (Sheet.not_found ".missing-field") Sample.page)
    = content Sample.page ∧
  outbound (console_error (Sheet.not_found ".missing-field") Sample.page)
    = outbound Sample.page ∧
  console (console_error (Sheet.not_found ".missing-field") Sample.page)
    = console Sample.page ++ [Sheet.not_found ".missing-field"].
Proof.
  apply (register_missing_selector ".missing-field" "mp" Sample.sheet
           Sample.page).
  reflexivity.
Defined.

(** A binding that failed does not disturb the ones that follow: they
    return the same element and leave the same sheet as without it. *)
Lemma register_after_missing (selector sel' key' : string)
    (sh : Sheet.t) (p : Page) :
  let p' := console_error (Sheet.not_found selector) p in
  (Sheet.registerInput sel' key' sh p').1 = (Sheet.registerInput sel' key' sh p).1 ∧
  (Sheet.registerBatchedInput sel' key' sh p').1
    = (Sheet.registerBatchedInput sel' key' sh p).1.
Proof.
  unfold Sheet.registerInput, Sheet.registerBatchedInput. simpl.
  destruct (content p !! sel'); done.
Qed.

(** ** Input events *)

Lemma listener_unfold (sh : Sheet.t) (l : Listener) (p : Page) :
  Sheet.listener sh l p =
  send (listener_call (Sheet.id sh) l (value_of (l_element l) p)) p.
Proof. unfold Sheet.listener, listener_call. by destruct (l_mode l). Qed.

(** Running listeners only sends: each one makes its call, reading the
    texts the page shows when the event is dispatched. *)
Lemma fold_listeners (sh : Sheet.t) (ls : list Listener) (p : Page) :
  foldl (λ p l, Sheet.listener sh l p) p ls =
  mkPage (content p) (titleNode p) (elements p) (activeElement p) (console p)
    (outbound p
       ++ ((λ l, listener_call (Sheet.id sh) l (value_of (l_element l) p))
             <$> ls))
    (writes p).
Proof.
  revert p. induction ls as [|l ls IH]; intros p.
  - simpl. rewrite app_nil_r. by destruct p.
  - simpl. rewrite IH, listener_unfold. simpl.
    by rewrite <- app_assoc.
Qed.

Lemma input_event_outbound element typed (sh : Sheet.t) (p : Page) el :
  elements p !! element = Some el →
  outbound (input_event element typed sh p) =
  outbound p
    ++ ((λ l, listener_call (Sheet.id sh) l
                (value_of (l_element l)
                   (set_elements
                      (alter (with_value typed) element (elements p)) p)))
          <$> listeners el).
Proof.
  intros Hel. unfold input_event. simpl.
  rewrite (lookup_alter_eq (with_value typed) (elements p) element), Hel.
  simpl. by rewrite fold_listeners.
Qed.

Lemma value_of_typed element typed (p : Page) :
  is_Some (elements p !! element) →
  value_of element
    (set_elements (alter (with_value typed) element (elements p)) p) = typed.
Proof.
  intros [el Hel]. unfold value_of. simpl.
  by rewrite (lookup_alter_eq (with_value typed) (elements p) element), Hel.
Qed.



Lemma set_property_id (key : string) (v i : Val) :
  set_property key v ({[ "id" := i ]} : Obj) =
  if bool_decide (key = "__proto__") then {[ "id" := i ]}
  else <[key := v]> {[ "id" := i ]}.
Proof.
  unfold set_property. case_bool_decide as Hk.
  - subst key. by rewrite lookup_singleton_ne.
  - by destruct (_ !! key).
Qed.




(** C10.  [Sheet.update] makes no call to the collaborators, whatever the
    payload and the cache, and neither does binding a field: the calls on
    record after them are the calls on record before.  Update payloads are
    only sent by input events, one by each listener installed on the
    element by [registerInput] or [registerBatchedInput]. *)
Theorem update_sends_nothing
    (data : Data) (selector key : string) (sh : Sheet.t) (p : Page)
    (element : elem_id) (typed : string) :
  outbound (state_of (Sheet.update data sh p)).2 = outbound p ∧
  outbound (Sheet.registerInput selector key sh p).2 = outbound p ∧
  outbound (Sheet.registerBatchedInput selector key sh p).2 = outbound p ∧
  outbound (input_event element typed sh p) =
    outbound p ++
    match elements p !! element with
    | Some el =>
        (λ l, listener_call (Sheet.id sh) l
                (value_of (l_element l)
                   (set_elements
                      (alter (with_value typed) element (elements p)) p)))
          <$> listeners el
    | None => []
    end.
Proof.
  split; [|split; [|split]].
  - destruct data as [| |o]; [reflexivity..|].
    rewrite state_of_update.
    by destruct (update_object_frame o sh p) as (_ & _ & _ & ->).
  - unfold Sheet.registerInput. by destruct (content p !! selector).
  - unfold Sheet.registerBatchedInput. by destruct (content p !! selector).
  - destruct (elements p !! element) as [el|] eqn:Hel.
    + by apply input_event_outbound.
    + unfold input_event. cbn [elements set_elements].
      rewrite (lookup_alter_eq (with_value typed) (elements p) element), Hel.
      simpl. by rewrite app_nil_r.
Qed.

(** ** Loading a character sheet window *)

Import CharacterSheetWindow.

(** Once [load] has returned after a failed fetch, with no sheet and no
    subscription, nothing but a new call of [load] changes the window's
    page, sheet, notifications or subscriptions. *)
Lemma run_after_return (evs : list Event) (w : t) :
  Forall (λ ev, is_load ev = false) evs →
  phase w = Fulfilled → sheet w = None → subscriptions w = [] →
  let w' := run evs w in
  page w' = page w ∧ phase w' = Fulfilled ∧ sheet w' = None ∧
  toasts w' = toasts w ∧ subscriptions w' = [].
Proof.
  intros Hevs. revert w.
  induction Hevs as [|ev evs Hev _ IH]; intros w Hph Hsh Hsub; [done|].
  unfold run. simpl. fold (run evs (step w ev)).
  assert (page (step w ev) = page w ∧ phase (step w ev) = Fulfilled ∧
          sheet (step w ev) = None ∧ toasts (step w ev) = toasts w ∧
          subscriptions (step w ev) = []) as (Hp & Hph' & Hsh' & Ht & Hsub').
  { destruct ev as [id|r| |id changes]; simpl.
    - discriminate Hev.
    - unfold resume. rewrite Hph. by destruct r.
    - done.
    - unfold push. rewrite Hsub.
      rewrite bool_decide_eq_false_2 by (by intros ?%elem_of_nil). done. }
  destruct (IH (step w ev) Hph' Hsh' Hsub') as (-> & -> & -> & -> & ->).
  by rewrite Hp, Ht.
Qed.

(** C7.  If the fetch of [load] reports a status other than "success",
    the window shows one error notification and [load] returns: no sheet
    is instantiated, no element is written, no subscription is created,
    and this stays so whatever resumptions, pushes or close follow. *)
Theorem failed_fetch_stops_load
    (p : Page) (id : Val) (response : Response) (evs : list Event) :
  status response ≠ VStr "success" →
  Forall (λ ev, is_load ev = false) evs →
  let w := run ([Load id; Resume SuperLoaded; Resume (Fetched response)]
                  ++ evs) (new p) in
  toasts w = ["Character loading failed!"] ∧
  sheet w = None ∧
  subscriptions w = [] ∧
  phase w = Fulfilled ∧
  writes (page w) = writes p ∧
  elements (page w) = elements p.
Proof.
  intros Hstatus Hevs w. subst w. unfold run. rewrite foldl_app.
  set (w3 := foldl step (new p) _).
  assert (w3 = mk (send (ApiRequest "/character/get" {[ "id" := id ]})
                        (set_content ∅ p))
                  Fulfilled None ["Character loading failed!"] [] false)
    as Hw3.
  { subst w3. simpl. unfold resume at 1. simpl.
    unfold loose_neq_str. by rewrite bool_decide_eq_true_2. }
  destruct (run_after_return evs w3 Hevs) as (Hp & Hph & Hsh & Ht & Hsub);
    [by rewrite Hw3..|].
  unfold run in *. rewrite Ht, Hsh, Hsub, Hph, Hp, Hw3. done.
Qed.

Lemma failed_fetch_stops_load_witness :
  let w := run ([Load (VStr "c1"); Resume SuperLoaded;
                 Resume (Fetched Sample.failure)]
                  ++ [Resume (Imported Sample.hp_sheet); Close])
               (new Sample.page) in
  toasts w = ["Character loading failed!"] ∧
  sheet w = None ∧
  subscriptions w = [] ∧
  phase w = Fulfilled ∧
  writes (page w) = writes Sample.page ∧
  elements (page w) = elements Sample.page.
Proof.
  apply (failed_fetch_stops_load Sample.page (VStr "c1") Sample.failure
           [Resume (Imported Sample.hp_sheet); Close]).
  - discriminate.
  - repeat constructor.
Defined.

(** C6 (amended).  [close()] before the subscription exists does not stop
    [load]: no resumption of [load] looks at the state of the window.  A
    resumption on a closed window writes the same page, instantiates and
    reconciles the same sheet, shows the same notifications and moves
    [load] to the same point as on the open window, and the subscription
    it creates is kept by the closed window. *)
Theorem resume_ignores_close (r : Resumption) (w : t) :
  let w1 := resume r w in
  let w2 := resume r (close w) in
  page w2 = page w1 ∧
  phase w2 = phase w1 ∧
  sheet w2 = sheet w1 ∧
  toasts w2 = toasts w1 ∧
  closed w2 = true ∧
  subscriptions w2 = drop (length (subscriptions w)) (subscriptions w1).
Proof.
  destruct w as [p ph sh ts subs cl].
  assert (drop (length subs) subs = []) as Hdrop by apply drop_all.
  destruct ph, r; simpl; try by repeat split.
  - unfold resume. simpl.
    destruct (loose_neq_str (status response) "success");
      [by repeat split|].
    destruct (character response); by repeat split.
  - unfold resume, instantiate. simpl.
    destruct (onLoad sheetClass characterData _ _) as [sh1 p1].
    destruct (addListeners sheetClass sh1 p1) as [sh2 p2]. simpl.
    repeat split. by rewrite drop_app_length.
Qed.

(** C6, as stated, fails: the window is closed while the fetch is pending;
    the resumptions of [load] then write the title, bind and reconcile the
    sheet and subscribe, and a later push is reconciled into the closed
    window. *)
Lemma late_resumption_touches_closed_sheet :
  let w := run [Load (VStr "c1"); Resume SuperLoaded; Close]
               (new Sample.blank) in
  let w' := run [Resume (Fetched Sample.success);
                 Resume (Imported Sample.hp_sheet); Resume CssLoaded;
                 Resume (HtmlLoaded Sample.fragment); Resume Subscribed] w in
  let w'' := step w' (Push (VStr "c1") (DObject {[ "hp" := VStr "7" ]})) in
  (closed w = true ∧ phase w = AwaitFetch (VStr "c1") ∧
   subscriptions w = [] ∧ writes (page w) = []) ∧
  (closed w' = true ∧ subscriptions w' = [VStr "c1"] ∧
   titleNode (page w') = "Zog" ∧
   Sheet.inputs <$> sheet w' = Some [("hp", 0)] ∧
   writes (page w')
     = [SetTextContent "Zog"; SetTextContent "Zog"; SetValue 0 "10"]) ∧
  writes (page w'') = writes (page w') ++ [SetValue 0 "7"].
Proof. repeat split; reflexivity. Qed.

(** * Further properties of the sheet *)

Lemma prop_empty (k : string) : prop ∅ k = VUndefined.
Proof. unfold prop. by rewrite lookup_empty. Qed.

Lemma prop_absent (o : Obj) (k : string) : k ∉ dom o → prop o k = VUndefined.
Proof. intros H. unfold prop. by rewrite (not_elem_of_dom_1 o k H). Qed.

Lemma update_object_listeners (data : Obj) (sh : Sheet.t) (p : Page) element :
  listeners <$> (elements (Sheet.update_object data sh p).2 !! element) =
  listeners <$> (elements p !! element).
Proof.
  rewrite update_object_lookup. by destruct (elements p !! element).
Qed.

Lemma input_event_page element typed (sh : Sheet.t) (p : Page) :
  input_event element typed sh p =
  mkPage (content p) (titleNode p)
    (alter (with_value typed) element (elements p))
    (activeElement p) (console p)
    (outbound (input_event element typed sh p)) (writes p).
Proof.
  unfold input_event. cbn [elements set_elements].
  destruct (alter (with_value typed) element (elements p) !! element);
    [|reflexivity].
  by rewrite fold_listeners.
Qed.

Lemma input_event_elements element typed (sh : Sheet.t) (p : Page) :
  elements (input_event element typed sh p) =
  alter (with_value typed) element (elements p).
Proof. by rewrite input_event_page. Qed.

Lemma addEventListener_frame element l (p : Page) el :
  elements p !! element = Some el →
  let p' := addEventListener element l p in
  (∀ e, value_of e p' = value_of e p) ∧
  (∀ e, e ≠ element → elements p' !! e = elements p !! e) ∧
  listeners <$> (elements p' !! element) = Some (listeners el ++ [l]) ∧
  content p' = content p ∧ titleNode p' = titleNode p ∧
  activeElement p' = activeElement p ∧ console p' = console p ∧
  outbound p' = outbound p ∧ writes p' = writes p.
Proof.
  intros Hel p'. subst p'. unfold addEventListener, value_of.
  cbn [elements set_elements content titleNode activeElement console
       outbound writes].
  split; [|split; [|split]].
  - intros e. rewrite (lookup_alter (with_listener l) (elements p) element e).
    case_decide; [subst e|done]. by rewrite Hel.
  - intros e He. by rewrite (lookup_alter_ne (with_listener l)).
  - by rewrite (lookup_alter_eq (with_listener l) (elements p) element), Hel.
  - done.
Qed.

(** X1.  A binding whose selector resolves is added after the bindings
    already there, and its listener after the listeners already on the
    element.  The call returns the element; it changes no displayed text
    and no other element, and writes, logs and sends nothing.  This holds
    for both kinds of binding, which differ in the listener only. *)
Theorem register_is_additive
    (selector key : string) (sh : Sheet.t) (p : Page) (element : elem_id)
    (el : Element) :
  content p !! selector = Some element →
  elements p !! element = Some el →
  ∀ mode,
    let '(r, sh', p') :=
      match mode with
      | Immediate => Sheet.registerInput selector key sh p
      | Batched => Sheet.registerBatchedInput selector key sh p
      end in
    r = Some element ∧
    Sheet.inputs sh' = Sheet.inputs sh ++ [(key, element)] ∧
    Sheet.id sh' = Sheet.id sh ∧
    Sheet.cachedData sh' = Sheet.cachedData sh ∧
    (∀ e, value_of e p' = value_of e p) ∧
    (∀ e, e ≠ element → elements p' !! e = elements p !! e) ∧
    listeners <$> (elements p' !! element)
      = Some (listeners el ++ [mkListener mode key element]) ∧
    content p' = content p ∧ titleNode p' = titleNode p ∧
    activeElement p' = activeElement p ∧ console p' = console p ∧
    outbound p' = outbound p ∧ writes p' = writes p.
Proof.
  intros Hsel Hel mode.
  destruct mode; unfold Sheet.registerInput, Sheet.registerBatchedInput;
    rewrite Hsel; (repeat (split; [reflexivity|]));
    eapply addEventListener_frame; eassumption.
Qed.

Lemma register_is_additive_witness :
  let '(r, sh', p') :=
    Sheet.registerBatchedInput ".hp" "hp" Sample.fresh Sample.template in
  r = Some 0 ∧
  Sheet.inputs sh' = Sheet.inputs Sample.fresh ++ [("hp", 0)] ∧
  Sheet.id sh' = Sheet.id Sample.fresh ∧
  Sheet.cachedData sh' = Sheet.cachedData Sample.fresh ∧
  (∀ e, value_of e p' = value_of e Sample.template) ∧
  (∀ e, e ≠ 0 → elements p' !! e = elements Sample.template !! e) ∧
  listeners <$> (elements p' !! 0)
    = Some (listeners (mkElement "ab" []) ++ [mkListener Batched "hp" 0]) ∧
  content p' = content Sample.template ∧
  titleNode p' = titleNode Sample.template ∧
  activeElement p' = activeElement Sample.template ∧
  console p' = console Sample.template ∧
  outbound p' = outbound Sample.template ∧
  writes p' = writes Sample.template.
Proof.
  exact (register_is_additive ".hp" "hp" Sample.fresh Sample.template 0
           (mkElement "ab" []) eq_refl eq_refl Batched).
Defined.

(** ** What the operations of a sheet keep *)

Lemma keeps_listeners_refl (p : Page) : keeps_listeners p p.
Proof. intros e el Hel. by exists el. Qed.

Lemma keeps_listeners_alter (f : Element → Element) element (p p' : Page) :
  (∀ el l, l ∈ listeners el → l ∈ listeners (f el)) →
  elements p' = alter f element (elements p) →
  keeps_listeners p p'.
Proof.
  intros Hf Hp' e el Hel. rewrite Hp', (lookup_alter f (elements p) element e).
  case_decide; [subst e|by exists el].
  rewrite Hel. exists (f el). split; [done|]. apply Hf.
Qed.

Lemma keeps_listeners_update (data : Obj) (sh : Sheet.t) (p : Page) :
  keeps_listeners p (Sheet.update_object data sh p).2.
Proof.
  intros e el Hel. rewrite update_object_lookup, Hel. simpl.
  eexists. split; [reflexivity|]. done.
Qed.

Lemma resolves_keeps (p p' : Page) :
  content p' = content p → keeps_listeners p p' → resolves p → resolves p'.
Proof.
  intros Hc Hk Hr selector element Hsel. rewrite Hc in Hsel.
  destruct (Hr selector element Hsel) as [el Hel].
  destruct (Hk element el Hel) as (el' & Hel' & _). by exists el'.
Qed.

Lemma listens_keeps (sh : Sheet.t) (p p' : Page) :
  keeps_listeners p p' → listens sh p → listens sh p'.
Proof.
  intros Hk Hl key element Hin.
  destruct (Hl key element Hin) as (el & mode & Hel & Hmode).
  destruct (Hk element el Hel) as (el' & Hel' & Hsub).
  exists el', mode. split; [done|]. by apply Hsub.
Qed.

Lemma bind_keeps (mode : Mode) (key : string) (element : elem_id)
    (sh : Sheet.t) (p : Page) (el : Element) :
  elements p !! element = Some el →
  resolves p → listens sh p →
  let p' := addEventListener element (mkListener mode key element) p in
  resolves p' ∧ listens (Sheet.push_input key element sh) p'.
Proof.
  intros Hel Hr Hl p'.
  assert (keeps_listeners p p') as Hk.
  { apply (keeps_listeners_alter
             (with_listener (mkListener mode key element)) element);
      [|reflexivity].
    intros el0 l' Hl'. simpl. apply elem_of_app. by left. }
  split; [by apply (resolves_keeps p)|].
  intros k e Hin. simpl in Hin. apply elem_of_app in Hin as [Hin|Hin].
  - by apply (listens_keeps sh p).
  - apply list_elem_of_singleton in Hin. injection Hin as -> ->.
    destruct (addEventListener_frame element (mkListener mode key element)
                p el Hel) as (_ & _ & Hnew & _).
    fold p' in Hnew.
    destruct (elements p' !! element) as [el'|]; [|discriminate Hnew].
    injection Hnew as Hnew. exists el', mode. split; [done|].
    rewrite Hnew. apply elem_of_app. right. left.
Qed.

Lemma register_keeps (mode : Mode) (selector key : string)
    (sh : Sheet.t) (p : Page) :
  resolves p → listens sh p →
  let '(_, sh', p') :=
    match mode with
    | Immediate => Sheet.registerInput selector key sh p
    | Batched => Sheet.registerBatchedInput selector key sh p
    end in
  Sheet.id sh' = Sheet.id sh ∧ Sheet.cachedData sh' = Sheet.cachedData sh ∧
  content p' = content p ∧ resolves p' ∧ listens sh' p'.
Proof.
  intros Hr Hl.
  destruct mode; unfold Sheet.registerInput, Sheet.registerBatchedInput;
    destruct (content p !! selector) as [element|] eqn:Hsel;
    (repeat (split; [reflexivity|])); try (by split).
  - destruct (Hr selector element Hsel) as [el Hel].
    by apply (bind_keeps Immediate key element sh p el).
  - destruct (Hr selector element Hsel) as [el Hel].
    by apply (bind_keeps Batched key element sh p el).
Qed.

Lemma apply_op_keeps (op : Op) (sh : Sheet.t) (p : Page) :
  resolves p → listens sh p →
  let st := apply_op (sh, p) op in
  Sheet.id st.1 = Sheet.id sh ∧ Sheet.cachedData st.1 = Sheet.cachedData sh ∧
  content st.2 = content p ∧ resolves st.2 ∧ listens st.1 st.2.
Proof.
  intros Hr Hl. destruct op as [selector key|selector key|data|element typed];
    cbn [apply_op fst snd].
  - pose proof (register_keeps Immediate selector key sh p Hr Hl) as H.
    by destruct (Sheet.registerInput selector key sh p) as [[r sh'] p'].
  - pose proof (register_keeps Batched selector key sh p Hr Hl) as H.
    by destruct (Sheet.registerBatchedInput selector key sh p)
      as [[r sh'] p'].
  - destruct data as [| |o]; [done..|]. rewrite state_of_update.
    destruct (update_object_frame o sh p) as (Hc & _).
    pose proof (keeps_listeners_update o sh p) as Hk.
    repeat split; [done|by apply (resolves_keeps p)|by apply (listens_keeps sh p)].
  - assert (keeps_listeners p (input_event element typed sh p)) as Hk.
    { apply (keeps_listeners_alter (with_value typed) element);
        [done|apply input_event_elements]. }
    assert (content (input_event element typed sh p) = content p) as Hc
      by by rewrite input_event_page.
    repeat split; [done|by apply (resolves_keeps p)|by apply (listens_keeps sh p)].
Qed.

Lemma apply_ops_keeps (ops : list Op) (sh : Sheet.t) (p : Page) :
  resolves p → listens sh p →
  let st := apply_ops ops (sh, p) in
  Sheet.id st.1 = Sheet.id sh ∧ Sheet.cachedData st.1 = Sheet.cachedData sh ∧
  content st.2 = content p ∧ resolves st.2 ∧ listens st.1 st.2.
Proof.
  intros Hr Hl. induction ops as [|op ops IH] using rev_ind.
  - simpl. by repeat split.
  - unfold apply_ops in *. rewrite foldl_snoc.
    destruct (foldl apply_op (sh, p) ops) as [sh' p'].
    destruct IH as (Hid & Hcache & Hc & Hr' & Hl').
    destruct (apply_op_keeps op sh' p' Hr' Hl') as (-> & -> & -> & ? & ?).
    done.
Qed.

Lemma listens_new (i : Val) (p : Page) : listens (Sheet.new i) p.
Proof. intros key element Hin. by apply elem_of_nil in Hin. Qed.

(** X2.  Whatever bindings, updates and input events a sheet goes
    through after its construction, its id is the one it was constructed
    with, its cache is still empty, the window's selectors are unchanged
    and still reach elements of the page, and every binding has its
    listener on its element. *)
Theorem sheet_invariant (ops : list Op) (i : Val) (p : Page) :
  resolves p →
  let st := apply_ops ops (Sheet.new i, p) in
  Sheet.id st.1 = i ∧ Sheet.cachedData st.1 = ∅ ∧
  content st.2 = content p ∧ resolves st.2 ∧ listens st.1 st.2.
Proof.
  intros Hr. apply (apply_ops_keeps ops (Sheet.new i) p Hr (listens_new i p)).
Qed.

Lemma sheet_invariant_witness :
  let st := apply_ops [RegisterInput ".hp" "hp"; Update (DObject Sample.hp10);
                       InputEvent 0 "12"]
                      (Sheet.new (VStr "c1"), Sample.template) in
  Sheet.id st.1 = VStr "c1" ∧ Sheet.cachedData st.1 = ∅ ∧
  content st.2 = content Sample.template ∧ resolves st.2 ∧
  listens st.1 st.2.
Proof.
  apply (sheet_invariant
           [RegisterInput ".hp" "hp"; Update (DObject Sample.hp10);
            InputEvent 0 "12"] (VStr "c1") Sample.template).
  intros selector element Hsel.
  destruct (decide (selector = ".hp")) as [->|Hne].
  - injection Hsel as <-. by eexists.
  - unfold Sample.template in Hsel. simpl in Hsel.
    by rewrite lookup_singleton_ne in Hsel.
Defined.

Lemma resolves_template : resolves Sample.template.
Proof.
  intros selector element Hsel.
  destruct (decide (selector = ".hp")) as [->|Hne].
  - injection Hsel as <-. by eexists.
  - unfold Sample.template in Hsel. simpl in Hsel.
    by rewrite lookup_singleton_ne in Hsel.
Defined.

(** X3.  In every state a sheet reaches from its construction, an input
    event on a bound element sends, for each key other than [__proto__]
    that the element is bound under, the object [{ id, [key]: text }]
    with the text typed: as an update request or as an entry of the
    batched update queue. *)
Theorem bound_field_reports_edits
    (ops : list Op) (i : Val) (p : Page)
    (key : string) (element : elem_id) (typed : string) :
  resolves p →
  key ≠ "__proto__" →
  let st := apply_ops ops (Sheet.new i, p) in
  (key, element) ∈ Sheet.inputs st.1 →
  let update : Obj := <[key := VStr typed]> {[ "id" := i ]} in
  ∃ sent,
    outbound (input_event element typed st.1 st.2) = outbound st.2 ++ sent ∧
    (ApiRequest "/character/update" update ∈ sent ∨
     AddCharacterUpdate update ∈ sent).
Proof.
  intros Hr Hkey st Hin update.
  destruct (apply_ops_keeps ops (Sheet.new i) p Hr (listens_new i p))
    as (Hid & _ & _ & _ & Hl).
  fold st in Hid, Hl. destruct (Hl key element Hin) as (el & mode & Hel & Hm).
  rewrite (input_event_outbound element typed st.1 st.2 el Hel).
  eexists. split; [reflexivity|].
  apply (list_elem_of_fmap_2
           (λ l, listener_call (Sheet.id st.1) l
                   (value_of (l_element l)
                      (set_elements
                         (alter (with_value typed) element (elements st.2))
                         st.2)))) in Hm.
  cbn [l_element] in Hm. rewrite value_of_typed in Hm by by exists el.
  rewrite Hid in Hm |- *.
  unfold listener_call in Hm at 1. cbn [l_key l_mode] in Hm.
  rewrite set_property_id, bool_decide_eq_false_2 in Hm by done.
  destruct mode; [left|right]; exact Hm.
Qed.

Lemma bound_field_reports_edits_witness :
  let st := apply_ops [RegisterBatchedInput ".hp" "hp";
                       Update (DObject Sample.hp10)]
                      (Sheet.new (VStr "c1"), Sample.template) in
  let update : Obj := <[ "hp" := VStr "12" ]> {[ "id" := VStr "c1" ]} in
  ∃ sent,
    outbound (input_event 0 "12" st.1 st.2) = outbound st.2 ++ sent ∧
    (ApiRequest "/character/update" update ∈ sent ∨
     AddCharacterUpdate update ∈ sent).
Proof.
  apply (bound_field_reports_edits
           [RegisterBatchedInput ".hp" "hp"; Update (DObject Sample.hp10)]
           (VStr "c1") Sample.template "hp" 0 "12" resolves_template).
  - discriminate.
  - left.
Defined.

(** X4.  While nothing is cached, which is how the constructor leaves the
    sheet, [update] follows the specification's [diff]: it writes, in
    binding order, the elements of the bound keys that the payload holds
    with a value other than [undefined], and an element none of whose keys
    is in the payload keeps its text. *)
Theorem empty_cache_update_follows_diff
    (data : Obj) (sh : Sheet.t) (p : Page) :
  Sheet.cachedData sh = ∅ →
  let p' := (state_of (Sheet.update (DObject data) sh p)).2 in
  writes p' =
    writes p ++ title_writes data ∅
      ++ ((λ b, SetValue b.2 (to_value_string (prop data b.1)))
            <$> filter (λ b, b.1 ∈ diff ∅ data) (Sheet.inputs sh)) ∧
  (∀ element,
     (∀ key, (key, element) ∈ Sheet.inputs sh → key ∉ dom data) →
     value_of element p' = value_of element p).
Proof.
  intros Hcache p'. subst p'. rewrite state_of_update. split.
  - rewrite update_object_writes, Hcache. do 2 f_equal.
    unfold input_writes, changed_inputs. f_equal.
    apply list_filter_iff. intros [key element]. simpl.
    unfold diff. rewrite elem_of_filter. split; [|tauto].
    intros Hne. split; [done|].
    destruct (decide (key ∈ dom data)) as [|Hnd]; [done|].
    by rewrite (prop_absent data key Hnd), prop_empty in Hne.
  - intros element Habsent. unfold value_of. rewrite update_object_lookup.
    destruct (elements p !! element) as [el|]; [|done]. simpl.
    apply final_value_unchanged. intros key Hin.
    by rewrite (prop_absent data key (Habsent key Hin)), Hcache, prop_empty.
Qed.

Lemma empty_cache_update_follows_diff_witness :
  let p' := (state_of (Sheet.update (DObject Sample.zog) Sample.sheet
                         Sample.page)).2 in
  writes p' =
    writes Sample.page ++ title_writes Sample.zog ∅
      ++ ((λ b, SetValue b.2 (to_value_string (prop Sample.zog b.1)))
            <$> filter (λ b, b.1 ∈ diff ∅ Sample.zog)
                  (Sheet.inputs Sample.sheet)) ∧
  (∀ element,
     (∀ key, (key, element) ∈ Sheet.inputs Sample.sheet →
             key ∉ dom Sample.zog) →
     value_of element p' = value_of element Sample.page).
Proof.
  apply (empty_cache_update_follows_diff Sample.zog Sample.sheet Sample.page).
  reflexivity.
Defined.

(** X5.  A payload that agrees with the cache on [name] and on every
    bound key changes nothing: [update] returns with the sheet and the
    page as they were, the history of writes included.  An empty payload
    on an empty cache is such a payload. *)
Theorem update_without_change_is_identity
    (data : Obj) (sh : Sheet.t) (p : Page) :
  prop data "name" = prop (Sheet.cachedData sh) "name" →
  (∀ key element, (key, element) ∈ Sheet.inputs sh →
                  prop data key = prop (Sheet.cachedData sh) key) →
  Sheet.update (DObject data) sh p = Returned (sh, p).
Proof.
  intros Hname Hkeys. rewrite update_returns, update_object_unfold.
  apply strict_neq_false in Hname. rewrite Hname. do 2 f_equal.
  destruct sh as [i cache ins]. simpl in Hkeys. clear Hname.
  induction ins as [|[key element] ins IH]; [reflexivity|].
  rewrite update_inputs_cons.
  assert (strict_neq (prop data key) (prop cache key) = false) as ->.
  { apply strict_neq_false, (Hkeys key element). left. }
  apply IH. intros k e Hin. apply (Hkeys k e). by right.
Qed.

Lemma update_without_change_is_identity_witness :
  Sheet.update (DObject ∅) Sample.sheet Sample.page
    = Returned (Sample.sheet, Sample.page).
Proof.
  apply (update_without_change_is_identity ∅ Sample.sheet Sample.page).
  - reflexivity.
  - intros key element _. by rewrite !prop_empty.
Defined.

(** X6.  [update] only assigns texts: whatever the payload, and whether
    it returns or throws, the sheet (id, cache, bindings) is the same
    object as before, and so are the window's selectors, the focus, the
    console, and the elements of the page with the listeners each one
    has. *)
Theorem update_keeps_bindings_and_listeners
    (data : Data) (sh : Sheet.t) (p : Page) :
  let st := state_of (Sheet.update data sh p) in
  st.1 = sh ∧
  content st.2 = content p ∧ activeElement st.2 = activeElement p ∧
  console st.2 = console p ∧
  dom (elements st.2) = dom (elements p) ∧
  ∀ element, listeners <$> (elements st.2 !! element)
             = listeners <$> (elements p !! element).
Proof.
  destruct data as [| |o]; [by repeat split..|].
  intros st. subst st. rewrite state_of_update.
  destruct (update_object_frame o sh p) as (Hc & Ha & Hcon & _).
  split; [reflexivity|]. repeat (split; [done|]). split.
  - apply set_eq. intros e. rewrite !elem_of_dom, update_object_lookup.
    by rewrite fmap_is_Some.
  - apply update_object_listeners.
Qed.



(** X8.  An input event changes one text and nothing else on the page:
    the element takes the text typed, every other element keeps its text,
    no listener is added or removed, title, selectors, focus and console
    are untouched, and no write is recorded; each listener of the element
    makes one call. *)
Theorem input_event_changes_one_text
    (element : elem_id) (typed : string) (sh : Sheet.t) (p : Page) :
  let p' := input_event element typed sh p in
  elements p' = alter (with_value typed) element (elements p) ∧
  (∀ e, e ≠ element → value_of e p' = value_of e p) ∧
  (∀ e, listeners <$> (elements p' !! e) = listeners <$> (elements p !! e)) ∧
  titleNode p' = titleNode p ∧ content p' = content p ∧
  activeElement p' = activeElement p ∧ console p' = console p ∧
  writes p' = writes p ∧
  length (outbound p') =
    length (outbound p)
    + from_option (λ el, length (listeners el)) 0 (elements p !! element).
Proof.
  intros p'. subst p'.
  split; [apply input_event_elements|]. split; [|split].
  - intros e He. unfold value_of. rewrite input_event_elements.
    by rewrite (lookup_alter_ne (with_value typed)).
  - intros e. rewrite input_event_elements.
    rewrite (lookup_alter (with_value typed) (elements p) element e).
    case_decide; [subst e|done]. by destruct (elements p !! element).
  - rewrite input_event_page. cbn [titleNode content activeElement console
                                    writes outbound].
    repeat (split; [reflexivity|]).
    destruct (elements p !! element) as [el|] eqn:Hel.
    + rewrite (input_event_outbound element typed sh p el Hel).
      by rewrite length_app, length_fmap.
    + unfold input_event. cbn [elements set_elements].
      rewrite (lookup_alter_eq (with_value typed) (elements p) element), Hel.
      simpl. lia.
Qed.

(** * Further properties of loading *)

Lemma addEventListener_values element l (p : Page) :
  (∀ e, value_of e (addEventListener element l p) = value_of e p) ∧
  (∀ e, is_Some (elements (addEventListener element l p) !! e)
        ↔ is_Some (elements p !! e)).
Proof.
  unfold addEventListener, value_of. cbn [elements set_elements].
  split; intros e;
    rewrite (lookup_alter (with_listener l) (elements p) element e);
    case_decide; try done; subst e.
  - by destruct (elements p !! element).
  - apply fmap_is_Some.
Qed.

(** Binding fields adds the bindings whose selector is found, in order,
    and changes no text. *)
Lemma bind_all_spec (bs : list (Mode * string * string))
    (sh : Sheet.t) (p : Page) :
  let st := bind_all bs sh p in
  Sheet.id st.1 = Sheet.id sh ∧
  Sheet.cachedData st.1 = Sheet.cachedData sh ∧
  Sheet.inputs st.1 = Sheet.inputs sh ++ resolved (content p) bs ∧
  content st.2 = content p ∧ titleNode st.2 = titleNode p ∧
  writes st.2 = writes p ∧ outbound st.2 = outbound p ∧
  (∀ e, value_of e st.2 = value_of e p) ∧
  (∀ e, is_Some (elements st.2 !! e) ↔ is_Some (elements p !! e)).
Proof.
  unfold bind_all, apply_ops. revert sh p.
  induction bs as [|[[mode selector] key] bs IH]; intros sh p.
  - simpl. rewrite app_nil_r. by repeat split.
  - rewrite fmap_cons. cbn [foldl].
    assert (∃ sh' p',
      apply_op (sh, p) (binding_op (mode, selector, key)) = (sh', p') ∧
      Sheet.id sh' = Sheet.id sh ∧
      Sheet.cachedData sh' = Sheet.cachedData sh ∧
      Sheet.inputs sh' =
        Sheet.inputs sh ++ resolved (content p) [(mode, selector, key)] ∧
      content p' = content p ∧ titleNode p' = titleNode p ∧
      writes p' = writes p ∧ outbound p' = outbound p ∧
      (∀ e, value_of e p' = value_of e p) ∧
      (∀ e, is_Some (elements p' !! e) ↔ is_Some (elements p !! e)))
      as (sh' & p' & -> & Hid & Hc & Hin & Hco & Ht & Hw & Ho & Hv & Hs).
    { unfold resolved.
      destruct mode; cbn [binding_op apply_op fst snd omap list_omap];
        unfold Sheet.registerInput, Sheet.registerBatchedInput;
        destruct (content p !! selector) as [element|] eqn:Hsel;
        cbn [fmap option_fmap option_map];
        eexists _, _; (split; [reflexivity|]);
        rewrite ?app_nil_r; repeat (split; [reflexivity|]);
        try (apply addEventListener_values); by split. }
    destruct (IH sh' p') as (-> & -> & -> & -> & -> & -> & -> & Hv' & Hs').
    rewrite Hin, Hco, <- app_assoc.
    repeat (split; [done|]). split.
    { f_equal. unfold resolved. simpl. by destruct (content p !! selector). }
    repeat (split; [done|]). split.
    + intros e. by rewrite Hv'.
    + intros e. by rewrite Hs'.
Qed.

Lemma elem_of_resolved (c : gmap string elem_id)
    (bs : list (Mode * string * string)) key element :
  (key, element) ∈ resolved c bs ↔
  ∃ mode selector, (mode, selector, key) ∈ bs ∧ c !! selector = Some element.
Proof.
  unfold resolved. rewrite list_elem_of_omap. split.
  - intros ([[mode selector] k] & Hin & Hm). simpl in Hm.
    destruct (c !! selector) as [e|] eqn:Hsel; [|discriminate Hm].
    injection Hm as -> ->. by exists mode, selector.
  - intros (mode & selector & Hin & Hsel).
    exists (mode, selector, key). split; [done|]. simpl. by rewrite Hsel.
Qed.

Lemma resume_fetched_success (w : t) (id : Val) (response : Response)
    (characterData : Obj) :
  phase w = AwaitFetch id →
  status response = VStr "success" →
  character response = DObject characterData →
  resume (Fetched response) w =
  set_phase (AwaitImport id characterData)
    (set_page (assign_textContent (prop characterData "name") (page w)) w).
Proof.
  intros Hph Hstatus Hchar. unfold resume. rewrite Hph, Hstatus, Hchar.
  reflexivity.
Qed.

Lemma instantiate_unfold (id : Val) (characterData : Obj)
    (sheetClass : SheetClass) (fragment : Fragment) (w : t) :
  let p0 := set_elements (elements (page w) ∪ f_elements fragment)
              (set_content (content (page w) ∪ f_content fragment)
                 (page w)) in
  let st1 := onLoad sheetClass characterData
               (Sheet.new (prop characterData "id")) p0 in
  let st2 := addListeners sheetClass st1.1 st1.2 in
  let st3 := Sheet.update_object characterData st2.1 st2.2 in
  instantiate id characterData sheetClass fragment w =
  mk st3.2 AwaitSubscribe (Some st3.1) (toasts w) (subscriptions w ++ [id])
     (closed w).
Proof.
  unfold instantiate. cbv zeta.
  destruct (onLoad sheetClass characterData _ _) as [sh1 p1]. cbn [fst snd].
  by destruct (addListeners sheetClass sh1 p1) as [sh2 p2].
Qed.

Lemma loading_state
    (p : Page) (id : Val) (response : Response) (characterData : Obj)
    (sheetClass : SheetClass) (fragment : Fragment) :
  status response = VStr "success" →
  character response = DObject characterData →
  run (loading id response sheetClass fragment) (new p) =
  set_phase Fulfilled
    (instantiate id characterData sheetClass fragment
       (mk (assign_textContent (prop characterData "name")
              (send (ApiRequest "/character/get" {[ "id" := id ]})
                 (set_content ∅ p)))
           (AwaitHtml id characterData sheetClass) None [] [] false)).
Proof.
  intros Hstatus Hchar.
  set (p2 := send (ApiRequest "/character/get" {[ "id" := id ]})
               (set_content ∅ p)).
  set (p3 := assign_textContent (prop characterData "name") p2).
  change (run (loading id response sheetClass fragment) (new p))
    with (resume Subscribed
            (resume (HtmlLoaded fragment)
               (resume CssLoaded
                  (resume (Imported sheetClass)
                     (resume (Fetched response)
                        (mk p2 (AwaitFetch id) None [] [] false)))))).
  rewrite (resume_fetched_success (mk p2 (AwaitFetch id) None [] [] false)
             id response characterData eq_refl Hstatus Hchar).
  change (resume (HtmlLoaded fragment)
            (resume CssLoaded (resume (Imported sheetClass) _)))
    with (instantiate id characterData sheetClass fragment
            (mk p3 (AwaitHtml id characterData sheetClass) None [] []
                false)).
  rewrite instantiate_unfold. reflexivity.
Qed.

(** X9.  A load that runs to its end, with a sheet class whose [onLoad]
    does nothing and whose [addListeners] only binds fields, fills the form
    from the fetched character: the window is subscribed once, to the id
    given to [load]; the title shows the character's name; the sheet
    carries the character's id, the bindings whose selector the template
    has, and an empty cache; the assignments made are the title, then
    what [update] assigns on an empty cache: to the bound elements whose
    key the character defines, its value for that key; and an element of
    the template none of whose keys the character defines keeps its
    template text. *)
Theorem load_fills_bound_fields
    (p : Page) (id : Val) (response : Response) (characterData : Obj)
    (bs : list (Mode * string * string)) (fragment : Fragment) :
  status response = VStr "success" →
  character response = DObject characterData →
  dom (f_elements fragment) ## dom (elements p) →
  let w := run (loading id response (binding_sheet bs) fragment) (new p) in
  let bound := resolved (f_content fragment) bs in
  phase w = Fulfilled ∧ subscriptions w = [id] ∧ toasts w = [] ∧
  titleNode (page w) = to_text_content (prop characterData "name") ∧
  sheet w = Some (Sheet.mk (prop characterData "id") ∅ bound) ∧
  writes (page w) =
    writes p ++ [SetTextContent (to_text_content (prop characterData "name"))]
      ++ title_writes characterData ∅
      ++ ((λ b, SetValue b.2 (to_value_string (prop characterData b.1)))
            <$> filter (λ b, prop characterData b.1 ≠ VUndefined) bound) ∧
  ∀ element el,
    f_elements fragment !! element = Some el →
    (∀ key, (key, element) ∈ bound → prop characterData key = VUndefined) →
    value_of element (page w) = value el.
Proof.
  intros Hstatus Hchar Hfresh w bound. subst w bound.
  rewrite (loading_state p id response characterData _ fragment Hstatus Hchar).
  rewrite instantiate_unfold. cbv zeta.
  cbn [set_phase page phase sheet toasts subscriptions closed app
       binding_sheet onLoad addListeners fst snd].
  set (p3 := assign_textContent (prop characterData "name")
               (send (ApiRequest "/character/get" {[ "id" := id ]})
                  (set_content ∅ p))).
  set (p0 := set_elements (elements p3 ∪ f_elements fragment)
               (set_content (content p3 ∪ f_content fragment) p3)).
  assert (content p0 = f_content fragment) as Hc0.
  { subst p0 p3. simpl. apply (left_id_L ∅ (∪)). }
  destruct (bind_all_spec bs (Sheet.new (prop characterData "id")) p0)
    as (Hid & Hcache & Hin & _ & Ht & Hw & _ & Hv & Hs).
  rewrite Hc0 in Hin. simpl in Hid, Hcache, Hin.
  set (st2 := bind_all bs (Sheet.new (prop characterData "id")) p0) in *.
  assert (st2.1 = Sheet.mk (prop characterData "id") ∅
                    (resolved (f_content fragment) bs)) as Hsh.
  { destruct st2.1 as [i c ins]. simpl in *. by subst. }
  repeat (split; [reflexivity|]). split; [|split; [|split]].
  - rewrite update_object_title, Hcache, prop_empty, Ht.
    by destruct (strict_neq _ _).
  - by rewrite <- Hsh.
  - rewrite update_object_writes, Hw, Hsh.
    cbn [Sheet.cachedData Sheet.inputs].
    change (writes p0)
      with (writes p
              ++ [SetTextContent
                    (to_text_content (prop characterData "name"))]).
    rewrite <- app_assoc. cbn [app].
    do 3 f_equal.
  - intros element el Hel Hundef.
    assert (elements p0 !! element = Some el) as Hel0.
    { subst p0 p3. simpl. apply lookup_union_Some_raw. right.
      split; [|done]. apply not_elem_of_dom. intros Hd.
      apply (Hfresh element); [|done]. apply elem_of_dom. by exists el. }
    assert (value_of element st2.2 = value el) as Hval.
    { rewrite Hv. unfold value_of. by rewrite Hel0. }
    rewrite update_object_value by (apply Hs; by exists el).
    rewrite Hsh, Hval. cbn [Sheet.cachedData Sheet.inputs].
    apply final_value_unchanged. intros k Hk.
    by rewrite (Hundef k Hk), prop_empty.
Qed.

Lemma load_fills_bound_fields_witness :
  let w := run (loading (VStr "c1") Sample.success
                  (binding_sheet [(Immediate, ".hp", "hp");
                                  (Batched, ".mp", "mp")])
                  Sample.fragment)
               (new Sample.blank) in
  let bound := resolved (f_content Sample.fragment)
                 [(Immediate, ".hp", "hp"); (Batched, ".mp", "mp")] in
  phase w = Fulfilled ∧ subscriptions w = [VStr "c1"] ∧ toasts w = [] ∧
  titleNode (page w) = to_text_content (prop Sample.character "name") ∧
  sheet w = Some (Sheet.mk (prop Sample.character "id") ∅ bound) ∧
  writes (page w) =
    writes Sample.blank
      ++ [SetTextContent (to_text_content (prop Sample.character "name"))]
      ++ title_writes Sample.character ∅
      ++ ((λ b, SetValue b.2 (to_value_string (prop Sample.character b.1)))
            <$> filter (λ b, prop Sample.character b.1 ≠ VUndefined) bound) ∧
  ∀ element el,
    f_elements Sample.fragment !! element = Some el →
    (∀ key, (key, element) ∈ bound →
            prop Sample.character key = VUndefined) →
    value_of element (page w) = value el.
Proof.
  apply (load_fills_bound_fields Sample.blank (VStr "c1") Sample.success
           Sample.character
           [(Immediate, ".hp", "hp"); (Batched, ".mp", "mp")]
           Sample.fragment).
  - reflexivity.
  - reflexivity.
  - unfold Sample.blank. simpl. rewrite dom_empty_L. set_solver.
Defined.

Example load_fills_hp :
  let w := run (loading (VStr "c1") Sample.success
                  (binding_sheet [(Immediate, ".hp", "hp");
                                  (Batched, ".mp", "mp")])
                  Sample.fragment)
               (new Sample.blank) in
  writes (page w)
    = [SetTextContent "Zog"; SetTextContent "Zog"; SetValue 0 "10"] ∧
  Sheet.inputs <$> sheet w = Some [("hp", 0)] ∧
  console (page w) = [Sheet.not_found ".mp"].
Proof. repeat split; reflexivity. Qed.

Lemma step_keeps_loaded_for (id : Val) (ev : Event) (w : t) :
  is_load ev = false → loaded_for id w → loaded_for id (step w ev).
Proof.
  intros Hev Hw. destruct w as [p ph sh ts subs cl].
  destruct ev as [i|r| |i changes]; [discriminate Hev|..].
  - unfold loaded_for in *. cbn [step]. simpl in Hw.
    destruct ph, r; try exact Hw;
      try (destruct Hw as (-> & -> & -> & ->));
      unfold resume; cbn [phase];
      try rewrite instantiate_unfold;
      repeat match goal with
             | |- context [loose_neq_str ?a ?b] => destruct (loose_neq_str a b)
             | |- context [character ?r] => destruct (character r)
             end;
      simpl; try done; try tauto; try naive_solver.
  - unfold loaded_for in *. simpl in *.
    destruct ph; try done;
      try (destruct Hw as (-> & -> & _ & ->); done);
      (destruct Hw as [(-> & _ & Ht)|(Hs & _ & ->)];
       [left; by repeat split|right; repeat split; [done|by left]]).
  - unfold loaded_for in *. cbn [step]. unfold push. simpl in *.
    case_bool_decide as Hsubscribed; [|done].
    destruct sh as [sh0|]; [|done].
    destruct (state_of (Sheet.update changes sh0 p)) as [sh1 p1]. simpl.
    destruct ph; try done;
      try (destruct Hw as (_ & Hn & _); discriminate Hn);
      (destruct Hw as [(Hn & _)|(_ & Hsub & Ht)]; [discriminate Hn|]);
      right; (split; [by eexists|done]).
Qed.

(** X10.  From the call [load(id)] on, whatever resumptions, pushes and
    closes follow, in any order: the window is subscribed at most once,
    and then to [id] and with a sheet to reconcile into; and the error
    notification is shown at most once, and then there is no sheet and no
    subscription. *)
Theorem load_subscribes_at_most_once
    (p : Page) (id : Val) (evs : list Event) :
  Forall (λ ev, is_load ev = false) evs →
  let w := run (Load id :: evs) (new p) in
  (subscriptions w = [] ∨
   (subscriptions w = [id] ∧ is_Some (sheet w) ∧ toasts w = [])) ∧
  (toasts w = [] ∨
   (toasts w = ["Character loading failed!"] ∧ sheet w = None ∧
    subscriptions w = [])).
Proof.
  intros Hevs w.
  assert (loaded_for id w) as Hw.
  { subst w. unfold run. cbn [foldl step].
    assert (loaded_for id (load id (new p))) as H0 by by repeat split.
    revert H0. generalize (load id (new p)).
    induction Hevs as [|ev evs Hev _ IH]; intros w0 H0; [done|].
    simpl. apply IH. by apply step_keeps_loaded_for. }
  unfold loaded_for in Hw.
  destruct (phase w); try done;
    try (destruct Hw as (_ & -> & -> & ->); split; by left);
    (destruct Hw as [(-> & -> & [->| ->])|(Hs & [->| ->] & ->)];
     split; try (by left); right; by repeat split).
Qed.

Lemma load_subscribes_at_most_once_witness :
  let w := run (Load (VStr "c1")
                  :: [Resume SuperLoaded; Push (VStr "c1") DUndefined; Close;
                      Resume (Fetched Sample.success);
                      Resume (Imported Sample.hp_sheet); Resume CssLoaded;
                      Resume (HtmlLoaded Sample.fragment);
                      Push (VStr "c1") (DObject Sample.hp10)])
               (new Sample.blank) in
  (subscriptions w = [] ∨
   (subscriptions w = [VStr "c1"] ∧ is_Some (sheet w) ∧ toasts w = [])) ∧
  (toasts w = [] ∨
   (toasts w = ["Character loading failed!"] ∧ sheet w = None ∧
    subscriptions w = [])).
Proof.
  apply (load_subscribes_at_most_once Sample.blank (VStr "c1")
           [Resume SuperLoaded; Push (VStr "c1") DUndefined; Close;
            Resume (Fetched Sample.success);
            Resume (Imported Sample.hp_sheet); Resume CssLoaded;
            Resume (HtmlLoaded Sample.fragment);
            Push (VStr "c1") (DObject Sample.hp10)]).
  repeat constructor.
Defined.

Lemma run_after_end (evs : list Event) (w : t) :
  Forall (λ ev, is_load ev = false) evs →
  phase w = Fulfilled ∨ phase w = Rejected →
  sheet w = None → subscriptions w = [] →
  let w' := run evs w in
  page w' = page w ∧ phase w' = phase w ∧ sheet w' = None ∧
  toasts w' = toasts w ∧ subscriptions w' = [].
Proof.
  intros Hevs. revert w.
  induction Hevs as [|ev evs Hev _ IH]; intros w Hph Hsh Hsub; [done|].
  unfold run. simpl. fold (run evs (step w ev)).
  assert (page (step w ev) = page w ∧ phase (step w ev) = phase w ∧
          sheet (step w ev) = None ∧ toasts (step w ev) = toasts w ∧
          subscriptions (step w ev) = []) as (Hp & Hph' & Hsh' & Ht & Hsub').
  { destruct ev as [id|r| |id changes]; simpl.
    - discriminate Hev.
    - unfold resume. destruct Hph as [Hph|Hph]; rewrite Hph; by destruct r.
    - done.
    - unfold push. rewrite Hsub.
      rewrite bool_decide_eq_false_2 by (by intros ?%elem_of_nil). done. }
  rewrite <- Hph' in Hph.
  destruct (IH (step w ev) Hph Hsh' Hsub') as (-> & -> & -> & -> & ->).
  by rewrite Hp, Ht, Hph'.
Qed.

(** X11.  A reply whose status is "success" but which carries no
    character makes [load] end with an exception, silently: no error
    notification is shown, the title is not written, no sheet is created
    and nothing is subscribed, and it stays so whatever follows. *)
Theorem fetch_without_character_rejects
    (p : Page) (id : Val) (response : Response) (evs : list Event) :
  status response = VStr "success" →
  character response = DUndefined ∨ character response = DNull →
  Forall (λ ev, is_load ev = false) evs →
  let w := run ([Load id; Resume SuperLoaded; Resume (Fetched response)]
                  ++ evs) (new p) in
  phase w = Rejected ∧ toasts w = [] ∧ sheet w = None ∧
  subscriptions w = [] ∧ writes (page w) = writes p ∧
  titleNode (page w) = titleNode p.
Proof.
  intros Hstatus Hchar Hevs w. subst w. unfold run. rewrite foldl_app.
  set (w3 := foldl step (new p) _).
  assert (w3 = mk (send (ApiRequest "/character/get" {[ "id" := id ]})
                        (set_content ∅ p))
                  Rejected None [] [] false) as Hw3.
  { subst w3. simpl. unfold resume at 1. simpl. rewrite Hstatus.
    by destruct Hchar as [-> | ->]. }
  destruct (run_after_end evs w3 Hevs) as (Hp & Hph & Hsh & Ht & Hsub);
    [rewrite Hw3; by right|by rewrite Hw3..|].
  unfold run in *. rewrite Ht, Hsh, Hsub, Hph, Hp, Hw3. done.
Qed.

Lemma fetch_without_character_rejects_witness :
  let w := run ([Load (VStr "c1"); Resume SuperLoaded;
                 Resume (Fetched (mkResponse (VStr "success") DUndefined))]
                  ++ [Resume (Imported Sample.hp_sheet);
                      Push (VStr "c1") (DObject Sample.hp10)])
               (new Sample.page) in
  phase w = Rejected ∧ toasts w = [] ∧ sheet w = None ∧
  subscriptions w = [] ∧ writes (page w) = writes Sample.page ∧
  titleNode (page w) = titleNode Sample.page.
Proof.
  apply (fetch_without_character_rejects Sample.page (VStr "c1")
           (mkResponse (VStr "success") DUndefined)
           [Resume (Imported Sample.hp_sheet);
            Push (VStr "c1") (DObject Sample.hp10)]).
  - reflexivity.
  - by left.
  - repeat constructor.
Defined.

(** X12.  When the promise [load] awaits is rejected, [load] ends where
    it stands: nothing is notified and nothing is undone (the page, the
    sheet and a subscription already made stay as they are), and no later
    resumption continues it. *)
Theorem rejected_await_ends_load (w : t) (rs : list Resumption) :
  suspended (phase w) = true →
  let w' := foldl (λ w r, resume r w) (resume Rejection w) rs in
  phase w' = Rejected ∧ page w' = page w ∧ sheet w' = sheet w ∧
  toasts w' = toasts w ∧ subscriptions w' = subscriptions w ∧
  closed w' = closed w.
Proof.
  intros Hsus.
  assert (resume Rejection w = set_phase Rejected w) as ->.
  { unfold resume. by destruct (phase w). }
  assert (∀ w0, phase w0 = Rejected →
                foldl (λ w r, resume r w) w0 rs = w0) as Habs.
  { induction rs as [|r rs IH]; intros w0 Hph; [done|]. simpl.
    assert (resume r w0 = w0) as ->; [|by apply IH].
    unfold resume. rewrite Hph. by destruct r. }
  intros w'. subst w'. by rewrite Habs.
Qed.

Lemma rejected_await_ends_load_witness :
  let w := run [Load (VStr "c1"); Resume SuperLoaded;
                Resume (Fetched Sample.success)] (new Sample.blank) in
  let w' := foldl (λ w r, resume r w) (resume Rejection w)
                  [Imported Sample.hp_sheet; CssLoaded] in
  phase w' = Rejected ∧ page w' = page w ∧ sheet w' = sheet w ∧
  toasts w' = toasts w ∧ subscriptions w' = subscriptions w ∧
  closed w' = closed w.
Proof.
  apply (rejected_await_ends_load
           (run [Load (VStr "c1"); Resume SuperLoaded;
                 Resume (Fetched Sample.success)] (new Sample.blank))
           [Imported Sample.hp_sheet; CssLoaded]).
  reflexivity.
Defined.

(** X13.  A push only reconciles: it leaves the point [load] has reached,
    the notifications, the subscriptions and the closed flag as they are,
    keeps the sheet (id, cache, bindings), the selectors and the console,
    and sends nothing.  A push for an id the window is not subscribed to,
    or one that carries no changes, leaves the window as it is. *)
Theorem push_only_reconciles (id : Val) (changes : Data) (w : t) :
  let w' := push id changes w in
  phase w' = phase w ∧ toasts w' = toasts w ∧
  subscriptions w' = subscriptions w ∧ closed w' = closed w ∧
  sheet w' = sheet w ∧
  content (page w') = content (page w) ∧
  console (page w') = console (page w) ∧
  outbound (page w') = outbound (page w) ∧
  (id ∉ subscriptions w ∨ changes = DUndefined ∨ changes = DNull → w' = w).
Proof.
  destruct w as [p ph sh ts subs cl]. unfold push. simpl.
  case_bool_decide as Hsub; [|by repeat split].
  destruct sh as [sh0|]; [|by repeat split].
  destruct changes as [| |o]; [by repeat split..|].
  rewrite state_of_update.
  destruct (update_object_frame o sh0 p) as (Hc & _ & Hcon & Hout).
  rewrite update_object_unfold in *. simpl in *.
  repeat (split; [done|]). intros [Hn|[Hn|Hn]]; done.
Qed.

(** * Properties of the main page *)

(** X14.  After [LogOut()], a load of the main page does not contact the
    server: [OnLoad] finds no token, redirects to [/login] again and
    returns, the session token staying null; the saved layouts survive
    the log-out. *)
Theorem logout_then_onload_redirects (b : Main.t) :
  let b1 := Main.LogOut b in
  let '(b2, waiting) := Main.OnLoad b1 in
  waiting = false ∧
  Main.requests b2 = Main.requests b ∧
  Main.intervals b2 = Main.intervals b ∧
  Main.location b2 = Main.location b ++ ["/login"; "/login"] ∧
  Main.session_token (Main.Session b2) = VNull ∧
  Main.token (Main.localStorage b2) = None ∧
  Main.defaultLayout (Main.localStorage b2)
    = Main.defaultLayout (Main.localStorage b) ∧
  Main.layouts (Main.localStorage b2) = Main.layouts (Main.localStorage b).
Proof.
  unfold Main.LogOut, Main.OnLoad. simpl.
  repeat (split; [reflexivity|]). split; [|done].
  by rewrite <- app_assoc.
Qed.

(** X15.  With a token in the storage, [OnLoad] asks for [/status] and,
    whatever the reply, goes on to ask for [/re-auth] and to schedule it
    every 900000 ms: a reply that is not a success adds a redirect to
    [/login] but does not end [OnLoad].  The session token is the stored
    one, the storage is not written, and up to the initialisation of the
    rule sets [OnLoad] throws exactly when the reply carries no user. *)
Theorem onload_reauthenticates
    (b : Main.t) (tok : string) (response : Main.StatusResponse) :
  Main.token (Main.localStorage b) = Some tok →
  let '(b1, waiting) := Main.OnLoad b in
  let out := Main.OnLoad_status response b1 in
  let b2 := state_of out in
  waiting = true ∧
  Main.requests b2
    = Main.requests b ++ [("/status", None); ("/re-auth", None)] ∧
  Main.intervals b2 = Main.intervals b ++ [(900000%Z, "/re-auth")] ∧
  Main.session_token (Main.Session b2) = VStr tok ∧
  Main.localStorage b2 = Main.localStorage b ∧
  Main.location b2 =
    Main.location b
      ++ (if strict_neq (Main.s_status response) (VStr "success")
          then ["/login"] else []) ∧
  (out = Returned b2 ↔ ∃ u, Main.s_user response = DObject u).
Proof.
  intros Htok. unfold Main.OnLoad. rewrite Htok. cbv zeta.
  unfold Main.OnLoad_status.
  destruct (strict_neq (Main.s_status response) (VStr "success"));
    destruct (Main.s_user response) as [| |u]; simpl;
    rewrite <- ?app_assoc, ?app_nil_r;
    repeat (split; [reflexivity|]);
    (split; [try done; by eexists|]); try done; by intros [u' ?].
Qed.

Lemma onload_reauthenticates_witness :
  let b := Main.mk (Main.mkStorage (Some "t0") None None)
                   (Main.mkSession VUndefined VUndefined VUndefined
                                   DUndefined VUndefined)
                   [] [] [] [] [] [] in
  let response := Main.mkStatus (VStr "error") (VStr "expired") DUndefined in
  let '(b1, waiting) := Main.OnLoad b in
  let out := Main.OnLoad_status response b1 in
  let b2 := state_of out in
  waiting = true ∧
  Main.requests b2
    = Main.requests b ++ [("/status", None); ("/re-auth", None)] ∧
  Main.intervals b2 = Main.intervals b ++ [(900000%Z, "/re-auth")] ∧
  Main.session_token (Main.Session b2) = VStr "t0" ∧
  Main.localStorage b2 = Main.localStorage b ∧
  Main.location b2 =
    Main.location b
      ++ (if strict_neq (Main.s_status response) (VStr "success")
          then ["/login"] else []) ∧
  (out = Returned b2 ↔ ∃ u, Main.s_user response = DObject u).
Proof.
  exact (onload_reauthenticates
           (Main.mk (Main.mkStorage (Some "t0") None None)
                    (Main.mkSession VUndefined VUndefined VUndefined
                                    DUndefined VUndefined)
                    [] [] [] [] [] [])
           "t0" (Main.mkStatus (VStr "error") (VStr "expired") DUndefined)
           eq_refl).
Defined.

Lemma load_each_spec (get : nat → Val → Response) (cs : list (Val * Val))
    (n : nat) (made : list (string * option Obj)) (results : list Data) :
  Main.load_each get n cs made results =
  (made ++ ((λ c, ("/character/get", Some ({[ "id" := c.1 ]} : Obj))) <$> cs),
   results
     ++ (character
           <$> filter (λ r, status r = VStr "success")
                 (imap (λ k c, get (n + k) c.1) cs))).
Proof.
  revert n made results. induction cs as [|[id name] cs IH];
    intros n made results.
  - simpl. by rewrite !app_nil_r.
  - cbn [Main.load_each]. rewrite IH. cbn [fmap list_fmap imap fst].
    rewrite Nat.add_0_r, filter_cons, <- !app_assoc.
    assert (imap ((λ k c, get (n + k) c.1) ∘ S) cs
            = imap (λ k c, get (S n + k) c.1) cs) as ->.
    { apply imap_ext. intros k c _. simpl. f_equal. lia. }
    f_equal. unfold loose_eq_str.
    case_bool_decide; destruct (decide _); try done.
    simpl. by rewrite <- app_assoc.
Qed.

(** X16.  [LoadCharacters] asks for the list under the path it is given,
    or under [null] when it is called without a path (the argument is
    [undefined]), then for each listed character in order, one request
    each, and returns the characters of the replies whose status is
    "success", in that order; a reply that fails is skipped and does not
    stop the loop.  When the list itself fails it throws, having asked for
    no character. *)
Theorem load_characters_collects
    (path : Val) (listed : Main.ListResponse) (get : nat → Val → Response) :
  let sent := if bool_decide (path = VUndefined) then VNull else path in
  Main.LoadCharacters path listed get =
  if bool_decide (Main.list_status listed = VStr "success") then
    match Main.characters listed with
    | Some cs =>
        (("/character/list", Some ({[ "path" := sent ]} : Obj))
           :: ((λ c, ("/character/get", Some ({[ "id" := c.1 ]} : Obj)))
                 <$> cs),
         Returned
           (character
              <$> filter (λ r, status r = VStr "success")
                    (imap (λ k c, get k c.1) cs)))
    | None =>
        ([("/character/list", Some ({[ "path" := sent ]} : Obj))],
         Threw "TypeError" [])
    end
  else
    ([("/character/list", Some ({[ "path" := sent ]} : Obj))],
     Threw "Error: failed to list characters" []).
Proof.
  intros sent.
  assert (sent = match path with VUndefined => VNull | _ => path end) as Hsent.
  { subst sent. by destruct path. }
  unfold Main.LoadCharacters, loose_neq_str. rewrite <- Hsent.
  case_bool_decide as Hs; case_bool_decide as Hs'; try done.
  destruct (Main.characters listed) as [cs|]; [|done].
  by rewrite load_each_spec.
Qed.

Example load_characters_skips_failures :
  let get := λ (n : nat) (id : Val),
    if bool_decide (id = VStr "b") then Sample.failure else Sample.success in
  Main.LoadCharacters VUndefined
    (Main.mkList (VStr "success")
       (Some [(VStr "a", VStr "A"); (VStr "b", VStr "B");
              (VStr "c", VStr "C")])) get =
  ([("/character/list", Some ({[ "path" := VNull ]} : Obj));
    ("/character/get", Some ({[ "id" := VStr "a" ]} : Obj));
    ("/character/get", Some ({[ "id" := VStr "b" ]} : Obj));
    ("/character/get", Some ({[ "id" := VStr "c" ]} : Obj))],
   Returned [DObject Sample.character; DObject Sample.character]).
Proof. reflexivity. Qed.

(** ** Layouts *)

Lemma layout_read_spec (b : Main.t) :
  Main.Layout_read b =
  match Main.layouts (Main.localStorage b) with
  | Some m => if bool_decide (m = ∅)
              then (Main.ErrorToast "No layouts saved." b, None)
              else (b, Some m)
  | None => (Main.ErrorToast "No layouts saved." b, None)
  end.
Proof. reflexivity. Qed.

Lemma set_property_insert {A : Type} (k : string) (v : A)
    (o : gmap string A) :
  k ≠ "__proto__" ∨ is_Some (o !! k) →
  set_property k v o = <[k := v]> o.
Proof.
  intros Hk. unfold set_property. destruct (o !! k) as [x|] eqn:Hx; [done|].
  destruct Hk as [Hk|[x Hk]]; [|done]. by rewrite bool_decide_eq_false_2.
Qed.

Lemma set_property_inherited {A : Type} (v : A) (o : gmap string A) :
  o !! "__proto__" = None → set_property "__proto__" v o = o.
Proof. intros Ho. unfold set_property. by rewrite Ho. Qed.

Lemma set_property_lookup_ne {A : Type} (k k' : string) (v : A)
    (o : gmap string A) :
  k ≠ k' → set_property k v o !! k' = o !! k'.
Proof.
  intros Hne. unfold set_property.
  destruct (o !! k); [by rewrite lookup_insert_ne|].
  case_bool_decide; [done|]. by rewrite lookup_insert_ne.
Qed.

Lemma set_property_keeps {A : Type} (k k' : string) (v : A)
    (o : gmap string A) :
  is_Some (o !! k') → is_Some (set_property k v o !! k').
Proof.
  intros Hk'. destruct (decide (k = k')) as [->|Hne].
  - rewrite set_property_insert by by right.
    rewrite lookup_insert_eq. by eexists.
  - by rewrite set_property_lookup_ne.
Qed.

Lemma layout_save_unfold (sel : Main.Selection) (layout : string)
    (b : Main.t) :
  Main.Name sel ≠ EmptyString →
  Main.localStorage (Main.Layout_Save (Some sel) layout b) =
  Main.mkStorage
    (Main.token (Main.localStorage b))
    (if Main.Default sel then Some (Main.Name sel)
     else Main.defaultLayout (Main.localStorage b))
    (Some (set_property (Main.Name sel) layout
             (default ∅ (Main.layouts (Main.localStorage b))))).
Proof.
  intros Hname. unfold Main.Layout_Save.
  rewrite bool_decide_eq_false_2 by done.
  destruct b as [[tok dl ls] se loc rq iv co ts u].
  by destruct (Main.Default sel).
Qed.

Lemma default_is_saved_save (sel : Main.Selection) (layout : string)
    (b : Main.t) :
  Main.default_is_saved (Main.localStorage b) →
  (Main.Default sel = true →
   Main.Name sel ≠ "__proto__" ∨
   is_Some (default ∅ (Main.layouts (Main.localStorage b)) !! "__proto__")) →
  Main.default_is_saved
    (Main.localStorage (Main.Layout_Save (Some sel) layout b)).
Proof.
  intros Hinv Hown.
  destruct (decide (Main.Name sel = EmptyString)) as [Hname|Hname].
  { unfold Main.Layout_Save. by rewrite bool_decide_eq_true_2. }
  rewrite layout_save_unfold by done. intros n Hn. simpl in Hn.
  eexists. split; [reflexivity|].
  destruct (Main.Default sel) eqn:Hdef.
  - injection Hn as <-. rewrite set_property_insert.
    + rewrite lookup_insert_eq. by eexists.
    + destruct (Hown eq_refl) as [Hne|Hsome]; [by left|].
      destruct (decide (Main.Name sel = "__proto__")) as [->|Hne];
        [by right|by left].
  - destruct (Hinv n Hn) as (m & Hm & Hl). rewrite Hm. simpl.
    by apply set_property_keeps.
Qed.

Lemma default_is_saved_delete_chosen (read : gmap string string)
    (name : string) (b : Main.t) :
  (∀ n, Main.defaultLayout (Main.localStorage b) = Some n → n ≠ name →
        is_Some (read !! n)) →
  Main.default_is_saved
    (Main.localStorage (Main.Layout_Delete_chosen read (Some name) b)).
Proof.
  intros Hread. destruct b as [[tok dl ls] se loc rq iv co ts u].
  simpl in *. intros n Hn.
  case_bool_decide as Hd; simpl in Hn; [done|].
  eexists. split; [reflexivity|].
  assert (n ≠ name) as Hne by (intros ->; by apply Hd).
  rewrite lookup_delete_ne by done. by apply Hread.
Qed.

Lemma default_is_saved_delete (selection : option string) (b : Main.t) :
  Main.default_is_saved (Main.localStorage b) →
  Main.default_is_saved (Main.localStorage (Main.Layout_Delete selection b)).
Proof.
  intros Hinv. unfold Main.Layout_Delete. rewrite layout_read_spec.
  destruct (Main.layouts (Main.localStorage b)) as [m|] eqn:Hm; [|done].
  case_bool_decide as Hempty; [done|].
  destruct selection as [name|]; [|done].
  apply default_is_saved_delete_chosen. intros n Hn _.
  destruct (Hinv n Hn) as (m' & Hm' & Hl). rewrite Hm in Hm'.
  by injection Hm' as <-.
Qed.

Lemma startup_unfold (intro : bool) (u : Obj) (b : Main.t) :
  Main.session_user (Main.Session b) = DObject u →
  truthy (Main.session_gm (Main.Session b)) = true ∨
  truthy (prop u "character_id") = true →
  Main.startup intro b =
  match Main.defaultLayout (Main.localStorage b) with
  | Some n =>
      match Main.layouts (Main.localStorage b) with
      | Some m => Returned (Main.act (Main.apply_named m n) b)
      | None => Threw "TypeError" b
      end
  | None => Returned (Main.act Main.OpenChat b)
  end.
Proof.
  intros Huser Hsession. unfold Main.startup. rewrite Huser.
  destruct (truthy (Main.session_gm (Main.Session b))); [done|].
  destruct Hsession as [Hgm|Hc]; [discriminate Hgm|]. by rewrite Hc.
Qed.

(** X17.  The storage keeps its default layout among the saved ones.  If
    the default layout, when set, names a saved layout, this still holds
    after [Layout > Save] (unless the layout is saved as default under the
    name [__proto__], which the stored object does not hold: assigning
    to that name then stores nothing), after [Layout > Delete] when
    nothing is saved while its dialog is open, and more generally when the
    layouts it read before the dialog hold the default layout or the
    default layout is the one deleted (deleting it also clears the
    default); [Layout > Load] and [LogOut()] leave the default layout and
    the layouts as they are. *)
Theorem default_layout_stays_saved
    (b : Main.t) (sel : Main.Selection) (layout : string)
    (read : gmap string string) (name : string) :
  Main.default_is_saved (Main.localStorage b) →
  (Main.Default sel = true →
   Main.Name sel ≠ "__proto__" ∨
   is_Some (default ∅ (Main.layouts (Main.localStorage b)) !! "__proto__")) →
  (∀ n, Main.defaultLayout (Main.localStorage b) = Some n → n ≠ name →
        is_Some (read !! n)) →
  Main.default_is_saved
    (Main.localStorage (Main.Layout_Save (Some sel) layout b)) ∧
  Main.default_is_saved
    (Main.localStorage (Main.Layout_Delete_chosen read (Some name) b)) ∧
  (∀ selection,
     Main.default_is_saved
       (Main.localStorage (Main.Layout_Delete selection b))) ∧
  (∀ selection,
     Main.localStorage (Main.Layout_Load_chosen read selection b)
       = Main.localStorage b ∧
     Main.localStorage (Main.Layout_Load selection b)
       = Main.localStorage b) ∧
  Main.defaultLayout (Main.localStorage (Main.LogOut b))
    = Main.defaultLayout (Main.localStorage b) ∧
  Main.layouts (Main.localStorage (Main.LogOut b))
    = Main.layouts (Main.localStorage b).
Proof.
  intros Hinv Hown Hread. split; [|split; [|split; [|split]]].
  - by apply default_is_saved_save.
  - by apply default_is_saved_delete_chosen.
  - intros selection. by apply default_is_saved_delete.
  - intros selection. split; [by destruct selection|].
    unfold Main.Layout_Load. rewrite layout_read_spec.
    destruct (Main.layouts (Main.localStorage b)) as [m|]; [|done].
    case_bool_decide; [done|]. by destruct selection.
  - done.
Qed.

Lemma default_layout_stays_saved_witness :
  let b := Main.mk (Main.mkStorage None (Some "combat")
                      (Some {[ "combat" := "[]"; "old" := "[]" ]}))
                   (Main.mkSession VUndefined VUndefined VUndefined
                                   DUndefined VUndefined)
                   [] [] [] [] [] [] in
  let sel := Main.mkSelection "main" true in
  let read : gmap string string := {[ "combat" := "[]"; "old" := "[]" ]} in
  Main.default_is_saved
    (Main.localStorage (Main.Layout_Save (Some sel) "[1]" b)) ∧
  Main.default_is_saved
    (Main.localStorage (Main.Layout_Delete_chosen read (Some "old") b)) ∧
  (∀ selection,
     Main.default_is_saved
       (Main.localStorage (Main.Layout_Delete selection b))) ∧
  (∀ selection,
     Main.localStorage (Main.Layout_Load_chosen read selection b)
       = Main.localStorage b ∧
     Main.localStorage (Main.Layout_Load selection b)
       = Main.localStorage b) ∧
  Main.defaultLayout (Main.localStorage (Main.LogOut b))
    = Main.defaultLayout (Main.localStorage b) ∧
  Main.layouts (Main.localStorage (Main.LogOut b))
    = Main.layouts (Main.localStorage b).
Proof.
  apply (default_layout_stays_saved
           (Main.mk (Main.mkStorage None (Some "combat")
                       (Some {[ "combat" := "[]"; "old" := "[]" ]}))
                    (Main.mkSession VUndefined VUndefined VUndefined
                                    DUndefined VUndefined)
                    [] [] [] [] [] [])
           (Main.mkSelection "main" true) "[1]"
           {[ "combat" := "[]"; "old" := "[]" ]} "old").
  - intros n Hn. injection Hn as <-.
    eexists. split; [reflexivity|]. by eexists.
  - intros _. by left.
  - intros n Hn _. injection Hn as <-. by eexists.
Defined.

(** Both conditions of X17 are needed.  A layout saved as default while
    the dialog of [Layout > Delete] is open is lost by the deletion, and
    the default layout then names no saved layout: the page opens by
    applying [undefined]. *)
Example stale_delete_loses_default :
  let b := Main.mk (Main.mkStorage None None (Some {[ "old" := "[]" ]}))
                   (Main.mkSession VUndefined (VBool true) VUndefined
                                   DUndefined VUndefined)
                   [] [] [] [] [] [] in
  let read : gmap string string := {[ "old" := "[]" ]} in
  let b1 := Main.Layout_Save (Some (Main.mkSelection "main" true)) "[1]" b in
  let b2 := Main.Layout_Delete_chosen read (Some "old") b1 in
  Main.Layout_read b = (b, Some read) ∧
  Main.default_is_saved (Main.localStorage b) ∧
  Main.default_is_saved (Main.localStorage b1) ∧
  Main.localStorage b2 = Main.mkStorage None (Some "main") (Some ∅) ∧
  ¬ Main.default_is_saved (Main.localStorage b2) ∧
  Main.startup true b2 = Returned (Main.act (Main.ApplyLayout None) b2).
Proof.
  split; [reflexivity|]. split; [by intros n Hn|]. split.
  { intros n Hn. injection Hn as <-.
    eexists. split; [reflexivity|]. by eexists. }
  split; [reflexivity|]. split; [|reflexivity].
  intros Hinv. destruct (Hinv "main" eq_refl) as (m & Hm & [l Hl]).
  injection Hm as <-. done.
Qed.

(** A layout saved as default under the name [__proto__] sets the
    default layout and stores nothing. *)
Example save_default_under_proto :
  let b := Main.mk (Main.mkStorage None None None)
                   (Main.mkSession VUndefined (VBool true) VUndefined
                                   DUndefined VUndefined)
                   [] [] [] [] [] [] in
  let b1 := Main.Layout_Save (Some (Main.mkSelection "__proto__" true))
                             "[1]" b in
  Main.localStorage b1 = Main.mkStorage None (Some "__proto__") (Some ∅) ∧
  ¬ Main.default_is_saved (Main.localStorage b1) ∧
  Main.startup true b1
    = Returned (Main.act (Main.ApplyInherited "__proto__") b1).
Proof.
  split; [reflexivity|]. split; [|reflexivity].
  intros Hinv. destruct (Hinv "__proto__" eq_refl) as (m & Hm & [l Hl]).
  injection Hm as <-. done.
Qed.

(** X18.  [Layout > Save] under a name other than [__proto__] stores the
    layout under that name, beside the layouts already saved, and
    [Layout > Delete] of the same name then takes it out again: the
    layouts are the earlier ones without that name (an empty object if
    there were none), the default layout is cleared if it was that name,
    and no error is shown. *)
Theorem save_then_delete
    (b : Main.t) (sel : Main.Selection) (layout : string) :
  Main.Name sel ≠ EmptyString →
  Main.Name sel ≠ "__proto__" →
  let st := Main.localStorage b in
  let b1 := Main.Layout_Save (Some sel) layout b in
  let b2 := Main.Layout_Delete (Some (Main.Name sel)) b1 in
  Main.layouts (Main.localStorage b1)
    = Some (<[Main.Name sel := layout]> (default ∅ (Main.layouts st))) ∧
  Main.layouts (Main.localStorage b2)
    = Some (delete (Main.Name sel) (default ∅ (Main.layouts st))) ∧
  Main.defaultLayout (Main.localStorage b2)
    = (if Main.Default sel
          || bool_decide (Main.defaultLayout st = Some (Main.Name sel))
       then None else Main.defaultLayout st) ∧
  Main.token (Main.localStorage b2) = Main.token st ∧
  Main.toasts b2 = Main.toasts b.
Proof.
  intros Hname Hproto st b1 b2. subst st b1 b2.
  destruct sel as [name def]. simpl in Hname, Hproto.
  unfold Main.Layout_Delete. rewrite layout_read_spec.
  unfold Main.Layout_Save. cbn [Main.Name Main.Default].
  rewrite bool_decide_eq_false_2 by done.
  destruct b as [[tok dl ls] se loc rq iv co ts u].
  cbn [Main.localStorage Main.layouts Main.set_localStorage Main.set_layouts
       Main.set_defaultLayout Main.defaultLayout Main.token].
  set (m := default ∅ _).
  assert (m = default ∅ ls) as Hm by by destruct def.
  rewrite (set_property_insert name layout m) by by left.
  rewrite (bool_decide_eq_false_2 (<[name:=layout]> m = ∅))
    by apply insert_non_empty.
  split; [by rewrite Hm|]. simpl.
  split; [by rewrite delete_insert_eq, Hm|].
  destruct def; simpl.
  - rewrite bool_decide_eq_true_2 by done. done.
  - case_bool_decide; done.
Qed.

Lemma save_then_delete_witness :
  let b := Main.mk (Main.mkStorage (Some "t0") None None)
                   (Main.mkSession VUndefined VUndefined VUndefined
                                   DUndefined VUndefined)
                   [] [] [] [] [] [] in
  let sel := Main.mkSelection "combat" true in
  let st := Main.localStorage b in
  let b1 := Main.Layout_Save (Some sel) "[]" b in
  let b2 := Main.Layout_Delete (Some (Main.Name sel)) b1 in
  Main.layouts (Main.localStorage b1)
    = Some (<[Main.Name sel := "[]"]> (default ∅ (Main.layouts st))) ∧
  Main.layouts (Main.localStorage b2)
    = Some (delete (Main.Name sel) (default ∅ (Main.layouts st))) ∧
  Main.defaultLayout (Main.localStorage b2)
    = (if Main.Default sel
          || bool_decide (Main.defaultLayout st = Some (Main.Name sel))
       then None else Main.defaultLayout st) ∧
  Main.token (Main.localStorage b2) = Main.token st ∧
  Main.toasts b2 = Main.toasts b.
Proof.
  apply (save_then_delete
           (Main.mk (Main.mkStorage (Some "t0") None None)
                    (Main.mkSession VUndefined VUndefined VUndefined
                                    DUndefined VUndefined)
                    [] [] [] [] [] [])
           (Main.mkSelection "combat" true) "[]"); discriminate.
Defined.

(** X19.  With no layout saved, be it that the storage has no [layouts]
    item or that the item is an empty object, [Layout > Delete] and
    [Layout > Load] show "No layouts saved." and do nothing else; and
    [Layout > Save] does nothing when its dialog is dismissed or the name
    is left empty. *)
Theorem layouts_edge_cases (b : Main.t) :
  Main.layouts (Main.localStorage b) = None ∨
  Main.layouts (Main.localStorage b) = Some ∅ →
  (∀ selection,
     Main.Layout_Delete selection b = Main.ErrorToast "No layouts saved." b ∧
     Main.Layout_Load selection b = Main.ErrorToast "No layouts saved." b) ∧
  (∀ layout def,
     Main.Layout_Save None layout b = b ∧
     Main.Layout_Save (Some (Main.mkSelection EmptyString def)) layout b = b).
Proof.
  intros Hnone. split; [|done]. intros selection.
  unfold Main.Layout_Delete, Main.Layout_Load. rewrite layout_read_spec.
  by destruct Hnone as [-> | ->].
Qed.

Lemma layouts_edge_cases_witness :
  let b := Main.mk (Main.mkStorage (Some "t0") None (Some ∅))
                   (Main.mkSession VUndefined VUndefined VUndefined
                                   DUndefined VUndefined)
                   [] [] [] [] [] [] in
  (∀ selection,
     Main.Layout_Delete selection b = Main.ErrorToast "No layouts saved." b ∧
     Main.Layout_Load selection b = Main.ErrorToast "No layouts saved." b) ∧
  (∀ layout def,
     Main.Layout_Save None layout b = b ∧
     Main.Layout_Save (Some (Main.mkSelection EmptyString def)) layout b = b).
Proof.
  apply (layouts_edge_cases
           (Main.mk (Main.mkStorage (Some "t0") None (Some ∅))
                    (Main.mkSession VUndefined VUndefined VUndefined
                                    DUndefined VUndefined)
                    [] [] [] [] [] [])).
  by right.
Defined.

(** X20.  [Layout > Delete] writes back the layouts it read before its
    dialog opened: a layout saved while the dialog is open, under a name
    other than [__proto__], is in the storage after the save and no longer
    after the deletion, unless it had been saved before. *)
Theorem delete_drops_layout_saved_meanwhile
    (b : Main.t) (read : gmap string string) (name : string)
    (sel : Main.Selection) (layout : string) :
  Main.Name sel ≠ EmptyString →
  Main.Name sel ≠ "__proto__" →
  let b1 := Main.Layout_Save (Some sel) layout b in
  let b2 := Main.Layout_Delete_chosen read (Some name) b1 in
  (∃ m, Main.layouts (Main.localStorage b1) = Some m ∧
        m !! Main.Name sel = Some layout) ∧
  Main.layouts (Main.localStorage b2) = Some (delete name read) ∧
  (read !! Main.Name sel = None →
   ∀ m, Main.layouts (Main.localStorage b2) = Some m →
        m !! Main.Name sel = None).
Proof.
  intros Hname Hproto b1 b2. subst b1 b2. split; [|split].
  - rewrite layout_save_unfold by done. eexists. split; [reflexivity|].
    rewrite set_property_insert by by left. by rewrite lookup_insert_eq.
  - reflexivity.
  - intros Hread m Hm. simpl in Hm. injection Hm as <-.
    rewrite lookup_delete. by case_decide.
Qed.

Lemma delete_drops_layout_saved_meanwhile_witness :
  let b := Main.mk (Main.mkStorage None None (Some {[ "old" := "[]" ]}))
                   (Main.mkSession VUndefined VUndefined VUndefined
                                   DUndefined VUndefined)
                   [] [] [] [] [] [] in
  let read : gmap string string := {[ "old" := "[]" ]} in
  let sel := Main.mkSelection "new" false in
  let b1 := Main.Layout_Save (Some sel) "[1]" b in
  let b2 := Main.Layout_Delete_chosen read (Some "old") b1 in
  (∃ m, Main.layouts (Main.localStorage b1) = Some m ∧
        m !! Main.Name sel = Some "[1]") ∧
  Main.layouts (Main.localStorage b2) = Some (delete "old" read) ∧
  (read !! Main.Name sel = None →
   ∀ m, Main.layouts (Main.localStorage b2) = Some m →
        m !! Main.Name sel = None).
Proof.
  apply (delete_drops_layout_saved_meanwhile
           (Main.mk (Main.mkStorage None None (Some {[ "old" := "[]" ]}))
                    (Main.mkSession VUndefined VUndefined VUndefined
                                    DUndefined VUndefined)
                    [] [] [] [] [] [])
           {[ "old" := "[]" ]} "old" (Main.mkSelection "new" false) "[1]");
    discriminate.
Defined.

(** X21.  A layout saved as default is the one the page opens with: after
    [Layout > Save] with the default box ticked and a name other than
    [__proto__], for a game master or a user who has a character, the end
    of [Main()] applies exactly the layout saved, and opens neither the
    chat window nor the character creator. *)
Theorem startup_applies_default_layout
    (b : Main.t) (intro : bool) (name layout : string) (u : Obj) :
  Main.session_user (Main.Session b) = DObject u →
  truthy (Main.session_gm (Main.Session b)) = true ∨
  truthy (prop u "character_id") = true →
  name ≠ EmptyString →
  name ≠ "__proto__" →
  let b1 := Main.Layout_Save (Some (Main.mkSelection name true)) layout b in
  Main.defaultLayout (Main.localStorage b1) = Some name ∧
  Main.startup intro b1
    = Returned (Main.act (Main.ApplyLayout (Some layout)) b1) ∧
  Main.ui b1 = Main.ui b.
Proof.
  intros Huser Hsession Hname Hproto b1.
  assert (Main.Session b1 = Main.Session b ∧ Main.ui b1 = Main.ui b)
    as [Hse Hui].
  { subst b1. unfold Main.Layout_Save. cbn [Main.Name].
    by rewrite bool_decide_eq_false_2 by done. }
  assert (Main.localStorage b1 =
          Main.mkStorage (Main.token (Main.localStorage b)) (Some name)
            (Some (<[name := layout]>
                     (default ∅ (Main.layouts (Main.localStorage b))))))
    as Hst.
  { subst b1. rewrite layout_save_unfold by done. cbn [Main.Name Main.Default].
    by rewrite set_property_insert by by left. }
  split; [by rewrite Hst|]. split; [|done].
  rewrite (startup_unfold intro u b1) by by rewrite Hse.
  rewrite Hst. cbn [Main.defaultLayout Main.layouts].
  unfold Main.apply_named. by rewrite lookup_insert_eq.
Qed.

Lemma startup_applies_default_layout_witness :
  let b := Main.mk (Main.mkStorage (Some "t0") (Some "combat")
                      (Some {[ "combat" := "[]" ]}))
                   (Main.mkSession (VStr "t0") (VBool true) (VStr "u1")
                                   (DObject ∅) (VStr "gm"))
                   [] [] [] [] [] [] in
  let b1 := Main.Layout_Save (Some (Main.mkSelection "main" true)) "[1]" b in
  Main.defaultLayout (Main.localStorage b1) = Some "main" ∧
  Main.startup false b1
    = Returned (Main.act (Main.ApplyLayout (Some "[1]")) b1) ∧
  Main.ui b1 = Main.ui b.
Proof.
  apply (startup_applies_default_layout
           (Main.mk (Main.mkStorage (Some "t0") (Some "combat")
                       (Some {[ "combat" := "[]" ]}))
                    (Main.mkSession (VStr "t0") (VBool true) (VStr "u1")
                                    (DObject ∅) (VStr "gm"))
                    [] [] [] [] [] [])
           false "main" "[1]" ∅).
  - reflexivity.
  - by left.
  - discriminate.
  - discriminate.
Defined.

(** X24.  While the default layout names a saved layout, the page opens,
    for a game master or a user who has a character, by applying the
    layout saved under that name, and opens neither the chat window nor
    the character creator. *)
Theorem startup_applies_saved_default
    (b : Main.t) (intro : bool) (name : string) (u : Obj) :
  Main.session_user (Main.Session b) = DObject u →
  truthy (Main.session_gm (Main.Session b)) = true ∨
  truthy (prop u "character_id") = true →
  Main.default_is_saved (Main.localStorage b) →
  Main.defaultLayout (Main.localStorage b) = Some name →
  ∃ m layout,
    Main.layouts (Main.localStorage b) = Some m ∧
    m !! name = Some layout ∧
    Main.startup intro b
      = Returned (Main.act (Main.ApplyLayout (Some layout)) b).
Proof.
  intros Huser Hsession Hinv Hdef.
  destruct (Hinv name Hdef) as (m & Hm & [layout Hl]).
  exists m, layout. split; [done|]. split; [done|].
  rewrite (startup_unfold intro u b) by done.
  rewrite Hdef, Hm. unfold Main.apply_named. by rewrite Hl.
Qed.

Lemma startup_applies_saved_default_witness :
  let b := Main.mk (Main.mkStorage (Some "t0") (Some "combat")
                      (Some {[ "combat" := "[2]"; "main" := "[1]" ]}))
                   (Main.mkSession (VStr "t0") (VBool false) (VStr "u1")
                                   (DObject {[ "character_id" := VStr "c1" ]})
                                   (VStr "ann"))
                   [] [] [] [] [] [] in
  ∃ m layout,
    Main.layouts (Main.localStorage b) = Some m ∧
    m !! "combat" = Some layout ∧
    Main.startup true b
      = Returned (Main.act (Main.ApplyLayout (Some layout)) b).
Proof.
  apply (startup_applies_saved_default
           (Main.mk (Main.mkStorage (Some "t0") (Some "combat")
                       (Some {[ "combat" := "[2]"; "main" := "[1]" ]}))
                    (Main.mkSession (VStr "t0") (VBool false) (VStr "u1")
                                    (DObject {[ "character_id" := VStr "c1" ]})
                                    (VStr "ann"))
                    [] [] [] [] [] [])
           true "combat" {[ "character_id" := VStr "c1" ]}).
  - reflexivity.
  - by right.
  - intros n Hn. injection Hn as <-.
    eexists. split; [reflexivity|]. by eexists.
  - reflexivity.
Defined.

(** * Properties of the login page *)

Lemma login_step_spec (l : Login.t) (ev : Login.Event) :
  let l' := Login.step l ev in
  (Login.location l' = Login.location l ∨
   (Login.succeeds ev = true ∧
    Login.location l' = Login.location l ++ ["/"])) ∧
  (Login.toasts l' = Login.toasts l ∨
   (Login.fails ev = true ∧
    Login.toasts l' = Login.toasts l ++ ["Login failed."])).
Proof.
  destruct l as [tok se aw ins pe loc rq co ts].
  destruct ev as [status|u p|status]; simpl.
  - unfold Login.status_reply. simpl. destruct aw; [|by split; left].
    unfold strict_neq. case_bool_decide as Hs; simpl.
    + by split; left.
    + subst status. split; [right|left]; done.
  - unfold Login.click. simpl. destruct ins; by split; left.
  - unfold Login.login_reply. simpl. destruct pe; [by split; left|].
    unfold strict_neq. case_bool_decide as Hs; simpl.
    + split; [by left|by right].
    + subst status. split; [right|left]; done.
Qed.

Lemma appended_once {A : Type} (x : A) (l l1 l2 : list A) (c : bool)
    (k n : nat) :
  l1 = l ∨ (c = true ∧ l1 = l ++ [x]) →
  l2 = l1 ++ replicate k x →
  (k ≤ n)%nat →
  ∃ k', l2 = l ++ replicate k' x ∧ (k' ≤ if c then S n else n)%nat.
Proof.
  intros [->|[-> ->]] -> Hk.
  - exists k. split; [done|]. destruct c; lia.
  - exists (S k). rewrite <- app_assoc. split; [done|]. lia.
Qed.

Lemma length_filter_cons {A : Type} (f : A → bool) (x : A) (l : list A) :
  length (filter (λ y, f y = true) (x :: l)) =
  if f x then S (length (filter (λ y, f y = true) l))
  else length (filter (λ y, f y = true) l).
Proof.
  rewrite filter_cons. destruct (decide (f x = true)) as [Hx|Hx].
  - by rewrite Hx.
  - by destruct (f x).
Qed.

Lemma login_run_spec (l : Login.t) (evs : list Login.Event) :
  let l' := foldl Login.step l evs in
  ∃ k j,
    Login.location l' = Login.location l ++ replicate k "/" ∧
    (k ≤ length (filter (λ ev, Login.succeeds ev = true) evs))%nat ∧
    Login.toasts l' = Login.toasts l ++ replicate j "Login failed." ∧
    (j ≤ length (filter (λ ev, Login.fails ev = true) evs))%nat.
Proof.
  revert l. induction evs as [|ev evs IH]; intros l.
  - exists 0, 0. simpl. by rewrite !app_nil_r.
  - simpl. destruct (IH (Login.step l ev)) as (k & j & Hl & Hk & Ht & Hj).
    destruct (login_step_spec l ev) as [Hloc Htoast].
    destruct (appended_once _ _ _ _ _ _ _ Hloc Hl Hk) as (k' & Hl' & Hk').
    destruct (appended_once _ _ _ _ _ _ _ Htoast Ht Hj) as (j' & Ht' & Hj').
    exists k', j'. by rewrite !length_filter_cons.
Qed.

(** X22.  The login page only ever navigates to [/], and at most once for
    each reply whose status is "success": without such a reply it stays
    where it is, whatever is clicked.  The only notification it shows is
    "Login failed.", at most once for each reply to a login request whose
    status is not "success": clicks and the reply to [/status] show
    none. *)
Theorem login_navigates_only_on_success
    (tok : option string) (evs : list Login.Event) :
  let l := Login.run tok evs in
  ∃ k j,
    Login.location l = replicate k "/" ∧
    (k ≤ length (filter (λ ev, Login.succeeds ev = true) evs))%nat ∧
    Login.toasts l = replicate j "Login failed." ∧
    (j ≤ length (filter (λ ev, Login.fails ev = true) evs))%nat.
Proof.
  intros l. subst l. unfold Login.run.
  destruct (login_run_spec (Login.ready (Login.loaded tok)) evs)
    as (k & j & Hl & Hk & Ht & Hj).
  exists k, j. rewrite Hl, Ht.
  assert (Login.location (Login.ready (Login.loaded tok)) = [] ∧
          Login.toasts (Login.ready (Login.loaded tok)) = []) as [-> ->].
  { unfold Login.ready, Login.loaded. destruct tok as [tok|]; simpl; [|done].
    by case_bool_decide. }
  done.
Qed.

Lemma clicks_before_install (l : Login.t) (evs : list Login.Event) :
  Login.installed l = false →
  Forall (λ ev, Login.is_click ev = true) evs →
  foldl Login.step l evs = l.
Proof.
  intros Hins Hevs. induction Hevs as [|ev evs Hev _ IH]; [done|].
  simpl. destruct ev as [|u p|]; try discriminate Hev.
  simpl. unfold Login.click. by rewrite Hins.
Qed.

(** X23.  With a stored token that is not empty, the login page asks for
    [/status] and puts the click handler on the button only when the
    reply is there: clicks made before it send nothing and log nothing,
    and the first click after it sends the login request.  With no token,
    or an empty one, no [/status] is asked and a click sends the login
    request at once. *)
Theorem clicks_wait_for_status
    (tok : string) (clicks : list Login.Event) (status : Val)
    (username password : string) :
  tok ≠ EmptyString →
  Forall (λ ev, Login.is_click ev = true) clicks →
  (let l := Login.run (Some tok) clicks in
   Login.requests l = [Login.StatusRequest] ∧ Login.console l = [] ∧
   Login.pending l = 0) ∧
  Login.requests
    (Login.run (Some tok)
       (clicks ++ [Login.StatusReply status;
                   Login.Click username password]))
    = [Login.StatusRequest; Login.LoginRequest username password] ∧
  Login.requests (Login.run None [Login.Click username password])
    = [Login.LoginRequest username password] ∧
  Login.requests
    (Login.run (Some EmptyString) [Login.Click username password])
    = [Login.LoginRequest username password].
Proof.
  intros Htok Hclicks.
  assert (Login.ready (Login.loaded (Some tok)) =
          Login.mk (Some tok) (Some tok) true false 0 []
                   [Login.StatusRequest] [] []) as Hready.
  { unfold Login.ready, Login.loaded. simpl.
    by rewrite bool_decide_eq_false_2 by done. }
  assert (foldl Login.step (Login.ready (Login.loaded (Some tok))) clicks =
          Login.mk (Some tok) (Some tok) true false 0 []
                   [Login.StatusRequest] [] []) as Hclicked.
  { rewrite Hready. by apply clicks_before_install. }
  unfold Login.run. rewrite foldl_app, !Hclicked.
  split; [done|]. split; [|done].
  simpl. unfold Login.status_reply. simpl.
  by destruct (strict_neq status (VStr "success")).
Qed.

Lemma clicks_wait_for_status_witness :
  (let l := Login.run (Some "t0")
              [Login.Click "ann" "pw"; Login.Click "ann" "pw"] in
   Login.requests l = [Login.StatusRequest] ∧ Login.console l = [] ∧
   Login.pending l = 0) ∧
  Login.requests
    (Login.run (Some "t0")
       ([Login.Click "ann" "pw"; Login.Click "ann" "pw"]
          ++ [Login.StatusReply (VStr "error"); Login.Click "bob" "pw2"]))
    = [Login.StatusRequest; Login.LoginRequest "bob" "pw2"] ∧
  Login.requests (Login.run None [Login.Click "bob" "pw2"])
    = [Login.LoginRequest "bob" "pw2"] ∧
  Login.requests (Login.run (Some EmptyString) [Login.Click "bob" "pw2"])
    = [Login.LoginRequest "bob" "pw2"].
Proof.
  apply (clicks_wait_for_status "t0"
           [Login.Click "ann" "pw"; Login.Click "ann" "pw"]
           (VStr "error") "bob" "pw2").
  - discriminate.
  - repeat constructor.
Defined.
